(** * Wa-Tor benchmark analysis: [analyze_results.py]

    A shallow embedding of the analysis pipeline of the Wa-Tor project
    (record extraction from the benchmark log, speedup and efficiency,
    report composition) and the properties of it that the specification
    states.

    Conventions of the embedding.
    - A Python [str] is a [string]: one character per code point, over the
      code points U+0000..U+00FF.  This is the repertoire of the benchmark
      log (ASCII and the micro sign U+00B5, the character 181); on it the
      class [\d] of Python's [re] is exactly the ten digits 0-9.
    - A Python [int] is a [Z]; its conversions from and to text have the
      limit of 4300 digits with which the interpreter starts.
    - A Python [float] is an IEEE 754 binary64 number, [spec_float] with
      precision 53 and maximal exponent 1024; arithmetic is that of
      [SpecFloat], which rounds to nearest, ties to even.
    - A Python exception is a value of [exn]; code that may raise returns a
      [result]. *)

From Stdlib Require Import ZArith List String Ascii Bool Lia.
From Stdlib Require Import SpecFloat DecimalString.
Import ListNotations.

Local Open Scope string_scope.
Local Open Scope Z_scope.

(** ** Exceptions *)

Inductive exn : Type :=
| ValueError
| IndexError
| ZeroDivisionError
| OverflowError.

Inductive result (A : Type) : Type :=
| Ok (a : A)
| Raise (e : exn).

Arguments Ok {A} a.
Arguments Raise {A} e.

Definition bind {A B : Type} (r : result A) (f : A -> result B) : result B :=
  match r with
  | Ok a => f a
  | Raise e => Raise e
  end.

Notation "x <- r ;; k" := (bind r (fun x => k))
  (at level 61, r at next level, right associativity).

(** [[f x for x in l]]: the elements are computed from left to right and the
    first exception ends the comprehension. *)
Fixpoint mapM {A B : Type} (f : A -> result B) (l : list A) : result (list B) :=
  match l with
  | [] => Ok []
  | x :: l' => y <- f x ;; ys <- mapM f l' ;; Ok (y :: ys)
  end.

(** [zip]: stops at the end of the shorter list. *)
Fixpoint zip {A B : Type} (l1 : list A) (l2 : list B) : list (A * B) :=
  match l1, l2 with
  | x :: l1', y :: l2' => (x, y) :: zip l1' l2'
  | _, _ => []
  end.

(** ** Regular expressions of Python's [re], as far as the pattern needs them

    The matcher is the backtracking one of [re]: a greedy repetition takes as
    many characters as it can and gives them back one at a time, a lazy one
    takes as few as it can and extends one at a time, an alternation tries its
    branches from left to right.  [k] is the continuation: what the rest of
    the pattern does with the rest of the text and the groups captured so
    far. *)

Module Re.

Inductive regex : Type :=
| Lit (s : string)                   (* literal text *)
| Plus (c : ascii -> bool)           (* [c+], greedy *)
| LazyStar (c : ascii -> bool)       (* [c*?] *)
| Alt (r1 r2 : regex)                (* [r1|r2] *)
| Group (r : regex)                  (* [(r)] *)
| Cat (r1 r2 : regex).

(** The result of a match: the text after it and the captured groups. *)
Definition state : Type := string * list string.
Definition cont : Type := string -> list string -> option state.

Fixpoint strip_prefix (p s : string) : option string :=
  match p, s with
  | EmptyString, _ => Some s
  | String a p', String b s' => if Ascii.eqb a b then strip_prefix p' s' else None
  | String _ _, EmptyString => None
  end.

Fixpoint plus_greedy (c : ascii -> bool) (s : string) (k : string -> option state)
  : option state :=
  match s with
  | String a s' =>
      if c a then
        match plus_greedy c s' k with
        | Some r => Some r
        | None => k s'
        end
      else None
  | EmptyString => None
  end.

Fixpoint star_lazy (c : ascii -> bool) (s : string) (k : string -> option state)
  : option state :=
  match k s with
  | Some r => Some r
  | None =>
      match s with
      | String a s' => if c a then star_lazy c s' k else None
      | EmptyString => None
      end
  end.

(** The text that a group matched: what [s] has in front of its suffix [s']. *)
Definition consumed (s s' : string) : string :=
  substring 0 (String.length s - String.length s') s.

Fixpoint run (r : regex) (s : string) (gs : list string) (k : cont) : option state :=
  match r with
  | Lit p =>
      match strip_prefix p s with
      | Some s' => k s' gs
      | None => None
      end
  | Plus c => plus_greedy c s (fun s' => k s' gs)
  | LazyStar c => star_lazy c s (fun s' => k s' gs)
  | Alt r1 r2 =>
      match run r1 s gs k with
      | Some r => Some r
      | None => run r2 s gs k
      end
  | Group r => run r s gs (fun s' gs' => k s' (gs' ++ [consumed s s'])%list)
  | Cat r1 r2 => run r1 s gs (fun s' gs' => run r2 s' gs' k)
  end.

(** [match]: the pattern at the start of the text. *)
Definition match_here (r : regex) (s : string) : option state :=
  run r s [] (fun s' gs => Some (s', gs)).

(** [findall]: the groups of the leftmost match, then of the leftmost match
    in the text after it, and so on.  Every match of the pattern below is
    non-empty, so the text left shrinks at each step and a fuel of the length
    of the text is never used up ([findall_fuel_enough]). *)
Fixpoint findall_fuel (fuel : nat) (r : regex) (s : string) : list (list string) :=
  match fuel with
  | O => []
  | S fuel' =>
      match match_here r s with
      | Some (s', gs) => gs :: findall_fuel fuel' r s'
      | None =>
          match s with
          | String _ s' => findall_fuel fuel' r s'
          | EmptyString => []
          end
      end
  end.

Definition findall (r : regex) (s : string) : list (list string) :=
  findall_fuel (S (String.length s)) r s.

(** What a pattern matches, without the order in which the matcher tries:
    [matches r s s' gs] when [r] can take a prefix of [s], leave [s'] and
    capture the groups [gs]. *)

Fixpoint all_in (c : ascii -> bool) (s : string) : bool :=
  match s with
  | EmptyString => true
  | String a s' => c a && all_in c s'
  end.

Inductive matches : regex -> string -> string -> list string -> Prop :=
| M_Lit p s :
    matches (Lit p) (p ++ s) s []
| M_Plus c pre s :
    pre <> EmptyString -> all_in c pre = true ->
    matches (Plus c) (pre ++ s) s []
| M_LazyStar c pre s :
    all_in c pre = true ->
    matches (LazyStar c) (pre ++ s) s []
| M_AltL r1 r2 s s' gs :
    matches r1 s s' gs -> matches (Alt r1 r2) s s' gs
| M_AltR r1 r2 s s' gs :
    matches r2 s s' gs -> matches (Alt r1 r2) s s' gs
| M_Group r s s' gs :
    matches r s s' gs -> matches (Group r) s s' (gs ++ [consumed s s'])%list
| M_Cat r1 r2 s s1 s2 gs1 gs2 :
    matches r1 s s1 gs1 -> matches r2 s1 s2 gs2 ->
    matches (Cat r1 r2) s s2 (gs1 ++ gs2)%list.

End Re.

(** ** The pattern of [parse_results]

    [r'Threads: (\d+).*?Execution Time: ([\d.]+)(ms|µs|s)'] with [re.DOTALL]. *)

Definition is_digit (a : ascii) : bool :=
  let n := N_of_ascii a in ((48 <=? n) && (n <=? 57))%N.

Definition is_digit_or_dot (a : ascii) : bool :=
  is_digit a || Ascii.eqb a ".".

(** [.] under [re.DOTALL]: any character, the newline too. *)
Definition any_char (a : ascii) : bool := true.

(** The micro sign, U+00B5. *)
Definition micro : ascii := "181".

Definition micro_s : string := String micro "s".

(** [Execution Time: ([\d.]+)(ms|µs|s)]: the second half of the pattern. *)
Definition time_field : Re.regex :=
  Re.Cat (Re.Lit "Execution Time: ")
 (Re.Cat (Re.Group (Re.Plus is_digit_or_dot))
         (Re.Group (Re.Alt (Re.Lit "ms") (Re.Alt (Re.Lit micro_s) (Re.Lit "s"))))).

Definition pattern : Re.regex :=
  Re.Cat (Re.Lit "Threads: ")
 (Re.Cat (Re.Group (Re.Plus is_digit))
 (Re.Cat (Re.LazyStar any_char)
         time_field)).

(** The three unit suffixes. *)
Definition is_unit (u : string) : Prop := u = "ms" \/ u = micro_s \/ u = "s".

(** No execution-time field begins within [gap], in the text [gap ++ tail]. *)
Fixpoint free_of_time (gap tail : string) : bool :=
  match gap with
  | EmptyString => true
  | String _ gap' =>
      match Re.match_here time_field (gap ++ tail) with
      | Some _ => false
      | None => free_of_time gap' tail
      end
  end.

(** The first character of the text is in the class. *)
Definition head_in (c : ascii -> bool) (s : string) : bool :=
  match s with
  | EmptyString => false
  | String a _ => c a
  end.

(** ** Numbers

    Python floats are binary64. *)

Definition float : Type := spec_float.

Definition prec : Z := 53.
Definition emax : Z := 1024.

Definition fmul : float -> float -> float := SFmul prec emax.
Definition fdiv : float -> float -> float := SFdiv prec emax.
Definition flt : float -> float -> bool := SFltb.
Definition fle : float -> float -> bool := SFleb.
Definition feq : float -> float -> bool := SFeqb.

Definition fzero : float := S754_zero false.

Definition is_nan (x : float) : bool :=
  match x with S754_nan => true | _ => false end.

Definition is_finite (x : float) : bool :=
  match x with S754_zero _ | S754_finite _ _ _ => true | _ => false end.

(** [x] is zero, positive or plus infinity. *)
Definition nonneg (x : float) : Prop := fle fzero x = true.

(** The floats [1.0], [100.0] and [1000.0]. *)
Definition f1_0 : float := S754_finite false 4503599627370496 (-52).
Definition f100 : float := S754_finite false 7036874417766400 (-46).
Definition f1000 : float := S754_finite false 8796093022208000 (-43).

(** [pow10 k] is [10^k]. *)
Fixpoint pow10 (k : nat) : positive :=
  match k with
  | O => 1
  | S k' => 10 * pow10 k'
  end.

(** The float nearest to [n / 10^k], for [0 <= n]: how [float] reads a
    decimal numeral with digits [n] of which [k] are after the point.  The
    division of [SpecFloat] is done on the two integers as they are, so the
    quotient is rounded once, to nearest and ties to even, with the
    infinity for a quotient beyond the range. *)
Definition float_of_decimal (n : Z) (k : nat) : float :=
  match n with
  | Zpos m => fdiv (S754_finite false m 0) (S754_finite false (pow10 k) 0)
  | _ => fzero
  end.

(** [float(n)] for an int, also where an int is an operand of a float
    operation: the nearest float, [OverflowError] beyond the range. *)
Definition float_of_int (n : Z) : result float :=
  match binary_normalize prec emax n 0 false with
  | S754_infinity _ => Raise OverflowError
  | x => Ok x
  end.

(** [x * n] for a float [x] and an int [n]. *)
Definition mul_int (x : float) (n : Z) : result float :=
  y <- float_of_int n ;; Ok (fmul x y).

(** [x / y] for floats: a zero divisor raises. *)
Definition truediv (x y : float) : result float :=
  if feq y fzero then Raise ZeroDivisionError else Ok (fdiv x y).

(** [x / n] for a float [x] and an int [n]. *)
Definition truediv_int (x : float) (n : Z) : result float :=
  y <- float_of_int n ;; truediv x y.

(** [int(s)] and [float(s)], on the texts that the groups of the pattern
    can hold: digits for group 1, digits and points for group 2.  [int] of a
    text of digits is its decimal value; the interpreter refuses, with
    [ValueError], a text of more than [max_str_digits] digits, leading zeros
    counted (the limit on conversions between [int] and [str], 4300 digits
    as the interpreter starts).  [float] has no such limit: it reads digits
    with at most one point, before, between or after them, and raises
    [ValueError] on anything else made of digits and points: no digit at
    all, or a second point. *)

Definition max_str_digits : nat := 4300.

Definition digit_value (a : ascii) : Z := Z.of_N (N_of_ascii a) - 48.

Fixpoint all_digits (s : string) : bool :=
  match s with
  | EmptyString => true
  | String a s' => is_digit a && all_digits s'
  end.

Fixpoint decimal_value (acc : Z) (s : string) : Z :=
  match s with
  | EmptyString => acc
  | String a s' => decimal_value (10 * acc + digit_value a) s'
  end.

Definition py_int (s : string) : result Z :=
  match s with
  | EmptyString => Raise ValueError
  | _ =>
      if all_digits s
      then if (max_str_digits <? String.length s)%nat then Raise ValueError
           else Ok (decimal_value 0 s)
      else Raise ValueError
  end.

(** The text before the first point and, when there is a point, the text
    after it. *)
Fixpoint split_point (s : string) : string * option string :=
  match s with
  | EmptyString => (EmptyString, None)
  | String a s' =>
      if Ascii.eqb a "." then (EmptyString, Some s')
      else let '(i, f) := split_point s' in (String a i, f)
  end.

Definition py_float (s : string) : result float :=
  let '(i, f) := split_point s in
  let f := match f with Some f => f | None => EmptyString end in
  match i ++ f with
  | EmptyString => Raise ValueError
  | ds =>
      if all_digits ds
      then Ok (float_of_decimal (decimal_value 0 ds) (String.length f))
      else Raise ValueError
  end.

(** ** [parse_results]

    The file is read by the caller: [parse_results] is given its content. *)

(** Lines 26-32: the time in milliseconds. *)
Definition to_ms (time_value : float) (unit : string) : result float :=
  if String.eqb unit "s" then mul_int time_value 1000
  else if String.eqb unit micro_s then truediv_int time_value 1000
  else Ok time_value.

(** [match[i]]. *)
Definition group (m : list string) (i : nat) : string := nth i m EmptyString.

(** Lines 22-32, the body of the loop: the sample of a match. *)
Definition sample_of_match (m : list string) : result (Z * float) :=
  thread_count <- py_int (group m 0) ;;
  time_value <- py_float (group m 1) ;;
  time_ms <- to_ms time_value (group m 2) ;;
  Ok (thread_count, time_ms).

(** The loop over the matches, with the two lists it appends to. *)
Fixpoint for_matches (matches : list (list string))
    (threads : list Z) (times_ms : list float) : result (list Z * list float) :=
  match matches with
  | [] => Ok (threads, times_ms)
  | m :: matches' =>
      sample <- sample_of_match m ;;
      for_matches matches' (threads ++ [fst sample])%list (times_ms ++ [snd sample])%list
  end.

Definition parse_results (content : string) : result (list Z * list float) :=
  let matches := Re.findall pattern content in
  for_matches matches [] [].

(** ** [calculate_speedup], [calculate_efficiency] *)

Definition calculate_speedup (threads : list Z) (times : list float)
  : result (list float) :=
  match times with
  | [] => Ok []
  | base_time :: _ =>
      if feq base_time fzero then Ok []
      else mapM (fun t => truediv base_time t) times
  end.

Definition calculate_efficiency (threads : list Z) (speedups : list float)
  : result (list float) :=
  mapM (fun '(s, t) => q <- truediv_int s t ;; mul_int q 100) (zip speedups threads).

(** ** Formatting

    [str(n)] and the format specifications [d] and [.pf] of the f-strings,
    with a minimal width: numbers are aligned to the right. *)

(** The decimal numeral of an integer. *)
Definition decimal_numeral (n : Z) : string := NilZero.string_of_int (Z.to_int n).

(** The least integer whose numeral has more than [max_str_digits]
    digits. *)
Definition str_limit : Z := 10 ^ Z.of_nat max_str_digits.

(** [str(n)], also as an f-string field without a format specification:
    the numeral, which the interpreter refuses to produce, with
    [ValueError], when it has more than [max_str_digits] digits. *)
Definition str_int (n : Z) : result string :=
  if str_limit <=? Z.abs n then Raise ValueError else Ok (decimal_numeral n).

Fixpoint spaces (n : nat) : string :=
  match n with
  | O => EmptyString
  | S n' => String " " (spaces n')
  end.

Fixpoint zeros (n : nat) : string :=
  match n with
  | O => EmptyString
  | S n' => String "0" (zeros n')
  end.

Definition rjust (width : nat) (s : string) : string :=
  spaces (width - String.length s) ++ s.

(** [f"{n:wd}"]: the numeral of [str(n)], with its limit. *)
Definition format_d (width : nat) (n : Z) : result string :=
  numeral <- str_int n ;; Ok (rjust width numeral).

(** The integer nearest to [m * 2^e * 10^p], ties to even: the digits of the
    float [m * 2^e] with [p] decimals. *)
Definition round_scaled (m : positive) (e : Z) (p : nat) : Z :=
  let n := Zpos m * Zpos (pow10 p) in
  match e with
  | Zneg d =>
      let den := Z.pow 2 (Zpos d) in
      let q := n / den in
      let r := n mod den in
      match 2 * r ?= den with
      | Lt => q
      | Eq => if Z.even q then q else q + 1
      | Gt => q + 1
      end
  | _ => n * Z.pow 2 e
  end.

(** The decimal numeral of [q / 10^p] for [0 <= q], with [p] decimals.
    The digits of a float are not a conversion of an [int]: no limit. *)
Definition fixed (q : Z) (p : nat) : string :=
  let i := decimal_numeral (q / Zpos (pow10 p)) in
  match p with
  | O => i
  | _ =>
      let f := decimal_numeral (q mod Zpos (pow10 p)) in
      i ++ "." ++ zeros (p - String.length f) ++ f
  end.

Definition sign (s : bool) : string := if s then "-" else EmptyString.

(** [f"{x:w.pf}"]; [width] is 0 where the format gives none. *)
Definition format_f (width p : nat) (x : float) : string :=
  rjust width
    match x with
    | S754_nan => "nan"
    | S754_infinity s => sign s ++ "inf"
    | S754_zero s => sign s ++ fixed 0 p
    | S754_finite s m e => sign s ++ fixed (round_scaled m e p) p
    end.

(** ** [generate_report] *)

(** [l[i]]. *)
Definition getitem {A : Type} (l : list A) (i : nat) : result A :=
  match nth_error l i with
  | Some x => Ok x
  | None => Raise IndexError
  end.

(** [max(l)]: the first element, replaced by each later element that is
    greater than the one held.  The result is an element of the list: it is
    returned with its position, which stands for the identity of the
    object. *)
Fixpoint max_from (l : list float) (i : nat) (best : nat * float) : nat * float :=
  match l with
  | [] => best
  | x :: l' => max_from l' (S i) (if flt (snd best) x then (i, x) else best)
  end.

Definition py_max (l : list float) : result (nat * float) :=
  match l with
  | [] => Raise ValueError
  | x :: l' => Ok (max_from l' 1 (0%nat, x))
  end.

(** [l.index(v)]: the first position whose element is the object [v] or
    equals it.  The identity matters for a NaN only, which equals nothing. *)
Fixpoint index_from (l : list float) (i : nat) (v : nat * float) : result nat :=
  match l with
  | [] => Raise ValueError
  | x :: l' =>
      if Nat.eqb i (fst v) || feq x (snd v) then Ok i
      else index_from l' (S i) v
  end.

Definition index (l : list float) (v : nat * float) : result nat :=
  index_from l 0 v.

Definition report_head : string :=
"# Wa-Tor Simulation Performance Results

## Test Configuration
- **Steps**: 1000 chronons
- **Grid Size**: 100x100
- **Initial Population**: 2000 fish, 400 sharks
- **Test Platform**: macOS (Apple Silicon/Intel)
- **Go Version**: 1.25+

## Performance Results

### Execution Times

| Threads | Execution Time (ms) | Speedup | Efficiency (%) |
|---------|--------------------:|--------:|---------------:|
".

Definition report_analysis : string :=
"
### Analysis

**Speedup**: Ratio of single-thread time to multi-thread time (higher is better)
- Ideal speedup would be linear (2x for 2 threads, 4x for 4 threads, etc.)

**Efficiency**: Percentage of ideal parallel performance achieved
- 100% efficiency means perfect scaling
- Values below 100% indicate overhead from synchronization and thread management

### Observations

".

Definition report_notes : string :=
"
### Implementation Notes

The parallel implementation uses:
- Fine-grained mutex locking per entity operation
- Random entity processing order (Fisher-Yates shuffle)
- Work distribution across thread pool

The mutex contention for shared grid access creates a bottleneck that limits
parallel scaling. This is a common challenge in cellular automaton simulations
where entities can interact with any neighboring cell.

## Performance Graphs

See the generated PNG files for visual representation:
- `execution_time.png` - Execution time vs thread count
- `speedup.png` - Speedup and efficiency vs thread count
".

Definition nl : string := String "010" EmptyString.

(** Line 72: a row of the table.  Of its four fields, the thread count is
    the one whose formatting can raise. *)
Definition table_row (row : Z * float * float * float) : result string :=
  let '(t, time, speedup, eff) := row in
  cell <- format_d 7 t ;;
  Ok ("| " ++ cell ++ " | " ++ format_f 18 2 time ++ " | "
           ++ format_f 6 2 speedup ++ "x | " ++ format_f 13 1 eff ++ "% |" ++ nl).

Fixpoint zip4 {A B C D : Type} (a : list A) (b : list B) (c : list C) (d : list D)
  : list (A * B * C * D) :=
  match a, b, c, d with
  | x :: a', y :: b', z :: c', w :: d' => (x, y, z, w) :: zip4 a' b' c' d'
  | _, _, _, _ => []
  end.

(** Lines 71-72: the loop that adds a row per sample, as far as the
    shortest of the four lists goes; it ends at the first row that raises. *)
Fixpoint add_rows (rows : list (Z * float * float * float)) (report : string)
  : result string :=
  match rows with
  | [] => Ok report
  | row :: rows' => line <- table_row row ;; add_rows rows' (report ++ line)
  end.

Definition table_rows (threads : list Z) (times speedups efficiencies : list float)
  : result string :=
  add_rows (zip4 threads times speedups efficiencies) EmptyString.

(** Lines 93 and 94. *)
Definition best_line (max_speedup_threads : Z) (max_speedup : float) : result string :=
  numeral <- str_int max_speedup_threads ;;
  Ok ("1. **Best Performance**: " ++ numeral
        ++ " thread(s) achieved " ++ format_f 0 2 max_speedup ++ "x speedup" ++ nl).

Definition baseline_line (time0 : float) : string :=
  "2. **Single Thread Baseline**: " ++ format_f 0 2 time0 ++ " ms" ++ nl.

(** Lines 96-104: the three branches. *)
Definition limited_scaling : string :=
  "3. **Limited Scaling**: The parallel implementation shows limited speedup, likely due to:" ++ nl
  ++ "   - Fine-grained locking causing contention" ++ nl
  ++ "   - Synchronization overhead exceeding computation benefits" ++ nl
  ++ "   - Random memory access patterns reducing cache efficiency" ++ nl.

Definition good_scaling : string :=
  "3. **Good Scaling**: The parallel implementation shows effective scaling" ++ nl.

Definition moderate_scaling : string :=
  "3. **Moderate Scaling**: Some benefit from parallelization, but with overhead" ++ nl.

(** The float literals [1.5] and [2.0]. *)
Definition f1_5 : float := S754_finite false 6755399441055744 (-52).
Definition f2_0 : float := S754_finite false 4503599627370496 (-51).

Definition scaling_branch (max_speedup : float) : string :=
  if flt max_speedup f1_5 then limited_scaling
  else if flt f2_0 max_speedup then good_scaling
  else moderate_scaling.

Definition generate_report (threads : list Z) (times speedups efficiencies : list float)
  : result string :=
  let report := report_head in
  rows <- table_rows threads times speedups efficiencies ;;
  let report := report ++ rows in
  let report := report ++ report_analysis in
  m <- py_max speedups ;;
  max_speedup_idx <- index speedups m ;;
  max_speedup_threads <- getitem threads max_speedup_idx ;;
  max_speedup <- getitem speedups max_speedup_idx ;;
  line <- best_line max_speedup_threads max_speedup ;;
  let report := report ++ line in
  time0 <- getitem times 0 ;;
  let report := report ++ baseline_line time0 in
  let report := report ++ scaling_branch max_speedup in
  let report := report ++ report_notes in
  Ok report.

(** ** [main]

    What a run does with the content of [benchmark_results.txt], from the
    extraction (line 191, once the file has been read) to the report that is
    handed to the writer (line 205).  The exceptions of [open], [read] and
    [write] are not described, nor are the graphs, which are drawn by
    matplotlib after the report is written and whose failures are caught. *)

Inductive outcome : Type :=
| NoResults (message : string) (status : Z)   (* printed, then [sys.exit(1)] *)
| Uncaught (e : exn)                          (* nothing written *)
| Written (report : string).                  (* [PERFORMANCE.md] *)

Definition run_result (r : result string) : outcome :=
  match r with
  | Ok report => Written report
  | Raise e => Uncaught e
  end.

Definition main (content : string) : outcome :=
  match parse_results content with
  | Raise e => Uncaught e
  | Ok (threads, times) =>
      match threads with
      | [] => NoResults "Error: No results found in benchmark_results.txt" 1
      | _ =>
          run_result (
            speedups <- calculate_speedup threads times ;;
            efficiencies <- calculate_efficiency threads speedups ;;
            generate_report threads times speedups efficiencies)
      end
  end.

(** ** Logs made of records

    A way to write down a log whose records are known, to state what the
    extractor gives on it. *)

(** The character does not occur in the text. *)
Fixpoint lacks (a : ascii) (s : string) : bool :=
  match s with
  | EmptyString => true
  | String b s' => negb (Ascii.eqb a b) && lacks a s'
  end.

(** A record of the log: the digits of the thread count, the text up to the
    time field, the number and the unit of the time field, and the text up to
    the next record. *)
Record log_record : Type := {
  thread_digits : string;
  gap : string;
  number : string;
  unit_suffix : string;
  trailer : string
}.

Definition render (r : log_record) : string :=
  "Threads: " ++ thread_digits r ++ gap r
    ++ "Execution Time: " ++ number r ++ unit_suffix r ++ trailer r.

Fixpoint render_all (rs : list log_record) : string :=
  match rs with
  | [] => EmptyString
  | r :: rs' => render r ++ render_all rs'
  end.

(** The three groups that the pattern captures on the record. *)
Definition groups_of (r : log_record) : list string :=
  [thread_digits r; number r; unit_suffix r].

(** The thread count is a run of digits that ends where the gap begins, no
    time field can begin in the gap (it has no [E]), the number is made of
    digits and points, the unit is one of the three, and no record can begin
    in the trailer (it has no [T]). *)
Definition well_formed_record (r : log_record) : Prop :=
  thread_digits r <> EmptyString
  /\ Re.all_in is_digit (thread_digits r) = true
  /\ head_in is_digit (gap r) = false
  /\ lacks "E" (gap r) = true
  /\ number r <> EmptyString
  /\ Re.all_in is_digit_or_dot (number r) = true
  /\ is_unit (unit_suffix r)
  /\ lacks "T" (trailer r) = true.

(** The number of points of a text, and whether it has a digit: a text of
    digits and points is a numeral that [float] reads when it has a digit and
    at most one point. *)
Fixpoint count_points (s : string) : nat :=
  match s with
  | EmptyString => O
  | String a s' => if Ascii.eqb a "." then S (count_points s') else count_points s'
  end.

Fixpoint has_digit (s : string) : bool :=
  match s with
  | EmptyString => false
  | String a s' => is_digit a || has_digit s'
  end.

Definition is_numeral (s : string) : Prop :=
  has_digit s = true /\ (count_points s <= 1)%nat.

(** A thread count that [int] reads: it has no more digits than the
    limit. *)
Definition is_short (s : string) : Prop :=
  (String.length s <= max_str_digits)%nat.

(** A match of the pattern whose two conversions succeed. *)
Definition is_readable (m : list string) : Prop :=
  is_short (group m 0) /\ is_numeral (group m 1).

(** * Properties *)

(** ** The matcher *)

Module ReFacts.
Import Re.

Lemma length_app (a b : string) :
  String.length (a ++ b) = (String.length a + String.length b)%nat.
Proof. induction a as [|c a IH]; simpl; [reflexivity | now rewrite IH]. Qed.

Lemma app_nil_r (a : string) : a ++ EmptyString = a.
Proof. induction a as [|c a IH]; simpl; [reflexivity | now rewrite IH]. Qed.

Lemma app_assoc (a b c : string) : (a ++ b) ++ c = a ++ (b ++ c).
Proof. induction a as [|x a IH]; simpl; [reflexivity | now rewrite IH]. Qed.

Lemma substring_prefix (a b : string) :
  substring 0 (String.length a) (a ++ b) = a.
Proof.
  induction a as [|c a IH]; simpl.
  - destruct b; reflexivity.
  - now rewrite IH.
Qed.

Lemma consumed_app (pre s : string) : consumed (pre ++ s) s = pre.
Proof.
  unfold consumed. rewrite length_app.
  replace (String.length pre + String.length s - String.length s)%nat
    with (String.length pre) by lia.
  apply substring_prefix.
Qed.

Lemma strip_prefix_app (p s : string) : strip_prefix p (p ++ s) = Some s.
Proof.
  induction p as [|a p IH]; simpl.
  - destruct s; reflexivity.
  - now rewrite Ascii.eqb_refl.
Qed.

Lemma strip_prefix_inv (p s s' : string) :
  strip_prefix p s = Some s' -> s = p ++ s'.
Proof.
  revert s. induction p as [|a p IH]; intros s H.
  - destruct s; simpl in H; injection H as <-; reflexivity.
  - destruct s as [|b s]; simpl in H; [discriminate|].
    destruct (Ascii.eqb a b) eqn:E; [|discriminate].
    apply Ascii.eqb_eq in E. subst b. simpl. f_equal. now apply IH.
Qed.

Lemma all_in_app (c : ascii -> bool) (a b : string) :
  all_in c (a ++ b) = all_in c a && all_in c b.
Proof.
  induction a as [|x a IH]; simpl; [reflexivity|].
  rewrite IH. now rewrite andb_assoc.
Qed.

(** *** The matcher finds only what the pattern matches *)

Lemma plus_greedy_sound c s k res :
  plus_greedy c s k = Some res ->
  exists pre s', s = pre ++ s' /\ pre <> EmptyString /\ all_in c pre = true
                 /\ k s' = Some res.
Proof.
  revert res. induction s as [|a s IH]; intros res H; simpl in H; [discriminate|].
  destruct (c a) eqn:Ca; [|discriminate].
  destruct (plus_greedy c s k) as [r|] eqn:G.
  - injection H as ->.
    destruct (IH res eq_refl) as (pre & s' & -> & _ & All & K).
    exists (String a pre), s'. simpl. rewrite Ca, All. repeat split; congruence.
  - exists (String a EmptyString), s. simpl. rewrite Ca. repeat split; congruence.
Qed.

Lemma star_lazy_sound c s k res :
  star_lazy c s k = Some res ->
  exists pre s', s = pre ++ s' /\ all_in c pre = true /\ k s' = Some res.
Proof.
  revert res. induction s as [|a s IH]; intros res H; simpl in H.
  - destruct (k EmptyString) eqn:K; [|discriminate].
    exists EmptyString, EmptyString. repeat split; congruence.
  - destruct (k (String a s)) eqn:K.
    + exists EmptyString, (String a s). repeat split; congruence.
    + destruct (c a) eqn:Ca; [|discriminate].
      destruct (IH res H) as (pre & s' & -> & All & K').
      exists (String a pre), s'. simpl. rewrite Ca, All. repeat split; congruence.
Qed.

Lemma run_sound r : forall s gs k res,
  run r s gs k = Some res ->
  exists s' new, matches r s s' new /\ k s' (gs ++ new)%list = Some res.
Proof.
  induction r as [p|c|c|r1 IH1 r2 IH2|r IH|r1 IH1 r2 IH2]; intros s gs k res H; simpl in H.
  - destruct (strip_prefix p s) as [s'|] eqn:P; [|discriminate].
    apply strip_prefix_inv in P. subst s.
    exists s', []. rewrite List.app_nil_r. split; [constructor | assumption].
  - apply plus_greedy_sound in H. destruct H as (pre & s' & -> & Ne & All & K).
    exists s', []. rewrite List.app_nil_r. split; [now constructor | assumption].
  - apply star_lazy_sound in H. destruct H as (pre & s' & -> & All & K).
    exists s', []. rewrite List.app_nil_r. split; [now constructor | assumption].
  - destruct (run r1 s gs k) as [x|] eqn:R1.
    + injection H as ->. destruct (IH1 _ _ _ _ R1) as (s' & new & M & K).
      exists s', new. split; [now apply M_AltL | assumption].
    + destruct (IH2 _ _ _ _ H) as (s' & new & M & K).
      exists s', new. split; [now apply M_AltR | assumption].
  - destruct (IH _ _ _ _ H) as (s' & new & M & K).
    exists s', (new ++ [consumed s s'])%list. split; [now constructor|].
    now rewrite List.app_assoc.
  - destruct (IH1 _ _ _ _ H) as (s1 & n1 & M1 & K1).
    destruct (IH2 _ _ _ _ K1) as (s2 & n2 & M2 & K2).
    exists s2, (n1 ++ n2)%list. split; [now apply M_Cat with s1|].
    now rewrite List.app_assoc.
Qed.

(** *** The matcher finds a match when the pattern has one *)

Lemma plus_greedy_complete c pre s k :
  pre <> EmptyString -> all_in c pre = true -> k s <> None ->
  plus_greedy c (pre ++ s) k <> None.
Proof.
  induction pre as [|a pre IH]; intros Ne All K; [congruence|].
  simpl in *. apply andb_prop in All. destruct All as [Ca All]. rewrite Ca.
  destruct pre as [|b pre].
  - simpl in *. destruct (plus_greedy c s k); [discriminate | assumption].
  - destruct (plus_greedy c (String b pre ++ s) k) eqn:G; [discriminate|].
    exfalso. apply IH; [discriminate | assumption | assumption | reflexivity].
Qed.

Lemma star_lazy_complete c pre s k :
  all_in c pre = true -> k s <> None -> star_lazy c (pre ++ s) k <> None.
Proof.
  induction pre as [|a pre IH]; intros All K.
  - simpl. destruct s; simpl; destruct (k _); congruence.
  - simpl in *. apply andb_prop in All. destruct All as [Ca All]. rewrite Ca.
    destruct (k (String a (pre ++ s))); [discriminate|]. now apply IH.
Qed.

Lemma run_complete r s s' new :
  matches r s s' new ->
  forall gs k, k s' (gs ++ new)%list <> None -> run r s gs k <> None.
Proof.
  induction 1 as [p s|c pre s Ne All|c pre s All|r1 r2 s s' new M IH|r1 r2 s s' new M IH
                 |r s s' new M IH|r1 r2 s s1 s2 n1 n2 M1 IH1 M2 IH2];
    intros gs k K; simpl.
  - rewrite strip_prefix_app. now rewrite List.app_nil_r in K.
  - rewrite List.app_nil_r in K. now apply plus_greedy_complete.
  - rewrite List.app_nil_r in K. now apply star_lazy_complete.
  - specialize (IH gs k K). destruct (run r1 s gs k); congruence.
  - destruct (run r1 s gs k); [discriminate|]. now apply IH.
  - apply IH. now rewrite <- List.app_assoc.
  - apply IH1. apply IH2. now rewrite <- List.app_assoc.
Qed.

(** A pattern that does not match at the start of a text fails there
    whatever follows it in a larger pattern. *)
Lemma run_none r s :
  match_here r s = None -> forall gs k, run r s gs k = None.
Proof.
  intros H gs k. destruct (run r s gs k) as [res|] eqn:R; [|reflexivity].
  apply run_sound in R. destruct R as (s' & new & M & _).
  exfalso. apply (run_complete _ _ _ _ M [] (fun s' gs => Some (s', gs))).
  - discriminate.
  - exact H.
Qed.

Lemma match_here_sound r s s' gs :
  match_here r s = Some (s', gs) -> matches r s s' gs.
Proof.
  intros H. apply run_sound in H. destruct H as (s1 & new & M & K).
  simpl in K. injection K as <- <-. exact M.
Qed.

(** A match takes a prefix of the text. *)
Lemma matches_prefix r s s' gs :
  matches r s s' gs -> exists pre, s = pre ++ s'.
Proof.
  induction 1 as [p s|c pre s Ne All|c pre s All|r1 r2 s s' new M IH|r1 r2 s s' new M IH
                 |r s s' new M IH|r1 r2 s s1 s2 n1 n2 M1 IH1 M2 IH2].
  - now exists p.
  - now exists pre.
  - now exists pre.
  - exact IH.
  - exact IH.
  - exact IH.
  - destruct IH1 as (p1 & ->). destruct IH2 as (p2 & ->).
    exists (p1 ++ p2). now rewrite app_assoc.
Qed.

End ReFacts.

(** ** The pattern of [parse_results] *)

Module PatternFacts.
Import Re ReFacts.

Ltac inv H := inversion H; subst; clear H.

Ltac inv_matches :=
  repeat match goal with
         | H : matches (Cat _ _) _ _ _ |- _ => inv H
         | H : matches (Lit _) _ _ _ |- _ => inv H
         | H : matches (Group _) _ _ _ |- _ => inv H
         | H : matches (Plus _) _ _ _ |- _ => inv H
         | H : matches (LazyStar _) _ _ _ |- _ => inv H
         | H : matches (Alt _ _) _ _ _ |- _ => inv H
         end.

(** A match of the pattern is a thread-count token, any text, and an
    execution-time field; its groups are the digits, the number and the
    unit. *)
Lemma time_field_inv s rest gs :
  matches time_field s rest gs ->
  exists num u,
    s = "Execution Time: " ++ num ++ u ++ rest /\ gs = [num; u]
    /\ num <> EmptyString /\ all_in is_digit_or_dot num = true /\ is_unit u.
Proof.
  intros M. unfold time_field in M. inv_matches.
  1: exists pre, "ms". 2: exists pre, micro_s. 3: exists pre, "s".
  all: rewrite (consumed_app pre), (consumed_app _ rest).
  all: unfold is_unit; simpl; auto 10.
Qed.

Lemma pattern_inv s rest gs :
  match_here pattern s = Some (rest, gs) ->
  exists d mid num u,
    s = "Threads: " ++ d ++ mid ++ "Execution Time: " ++ num ++ u ++ rest
    /\ gs = [d; num; u]
    /\ d <> EmptyString /\ all_in is_digit d = true
    /\ num <> EmptyString /\ all_in is_digit_or_dot num = true /\ is_unit u.
Proof.
  intros H. apply match_here_sound in H. unfold pattern in H.
  inv_matches.
  match goal with M : matches time_field _ _ _ |- _ => apply time_field_inv in M;
    destruct M as (num & u & -> & -> & Hn & Hd & Hu) end.
  exists pre, pre0, num, u. rewrite consumed_app. simpl. auto 10.
Qed.

Lemma pattern_shrinks s rest gs :
  match_here pattern s = Some (rest, gs) ->
  (String.length rest < String.length s)%nat.
Proof.
  intros H. apply pattern_inv in H.
  destruct H as (d & mid & num & u & -> & _).
  rewrite !length_app. simpl. lia.
Qed.

(** The fuel of [findall] is never used up. *)
Lemma findall_fuel_enough n m : forall s,
  (String.length s < n)%nat -> (String.length s < m)%nat ->
  findall_fuel n pattern s = findall_fuel m pattern s.
Proof.
  revert m. induction n as [|n IH]; intros m s Hn Hm; [lia|].
  destruct m as [|m]; [lia|]. simpl.
  destruct (match_here pattern s) as [[s' gs]|] eqn:M.
  - apply pattern_shrinks in M. f_equal. apply IH; lia.
  - destruct s as [|a s]; [reflexivity|]. simpl in *. apply IH; lia.
Qed.

Lemma findall_eq s :
  findall pattern s =
  match match_here pattern s with
  | Some (s', gs) => gs :: findall pattern s'
  | None =>
      match s with
      | String _ s' => findall pattern s'
      | EmptyString => []
      end
  end.
Proof.
  unfold findall at 1. cbn [findall_fuel].
  destruct (match_here pattern s) as [[s' gs]|] eqn:M.
  - apply pattern_shrinks in M. f_equal. apply findall_fuel_enough; lia.
  - destruct s as [|a s]; [reflexivity|]. apply findall_fuel_enough; simpl; lia.
Qed.

(** Every match that [findall] returns is a match of the pattern somewhere
    in the text. *)
Lemma findall_matches s : forall gs,
  In gs (findall pattern s) ->
  exists s1 rest, match_here pattern s1 = Some (rest, gs).
Proof.
  unfold findall. generalize (S (String.length s)) as n. intros n. revert s.
  induction n as [|n IH]; intros s gs H; simpl in H; [contradiction|].
  destruct (match_here pattern s) as [[s' gs']|] eqn:M.
  - destruct H as [<-|H]; [now exists s, s' | now apply IH with s'].
  - destruct s as [|a s]; [contradiction | now apply IH with s].
Qed.

(** *** What the matcher does on a record *)

Lemma plus_greedy_head c s k : head_in c s = false -> plus_greedy c s k = None.
Proof. destruct s as [|a s]; simpl; [reflexivity | now intros ->]. Qed.

Lemma plus_greedy_first c d s k r :
  d <> EmptyString -> all_in c d = true -> head_in c s = false ->
  k s = Some r -> plus_greedy c (d ++ s) k = Some r.
Proof.
  intros Ne All Hd K. induction d as [|a d IH]; [congruence|].
  simpl in *. apply andb_prop in All. destruct All as [Ca All]. rewrite Ca.
  destruct d as [|b d].
  - simpl. now rewrite plus_greedy_head.
  - rewrite IH; [reflexivity | discriminate | assumption].
Qed.

Lemma star_lazy_here c s k r : k s = Some r -> star_lazy c s k = Some r.
Proof. intros K. destruct s; simpl; now rewrite K. Qed.

Lemma star_lazy_skip gap tail gs k :
  free_of_time gap tail = true ->
  star_lazy any_char (gap ++ tail) (fun s' => run time_field s' gs k)
  = star_lazy any_char tail (fun s' => run time_field s' gs k).
Proof.
  induction gap as [|a gap IH]; intros F; [reflexivity|].
  cbn [free_of_time] in F.
  destruct (match_here time_field (String a gap ++ tail)) eqn:M; [discriminate|].
  change (String a gap ++ tail) with (String a (gap ++ tail)) in *.
  cbn [star_lazy]. rewrite (run_none _ _ M). cbn [any_char]. now apply IH.
Qed.

Lemma head_unit u rest : is_unit u -> head_in is_digit_or_dot (u ++ rest) = false.
Proof. intros [->|[->| ->]]; reflexivity. Qed.

Lemma time_field_run num u rest gs k r :
  num <> EmptyString -> all_in is_digit_or_dot num = true -> is_unit u ->
  k rest (gs ++ [num; u])%list = Some r ->
  run time_field ("Execution Time: " ++ num ++ u ++ rest) gs k = Some r.
Proof.
  intros Ne All U K. unfold time_field. cbn [run].
  rewrite strip_prefix_app.
  apply plus_greedy_first; [assumption | assumption | now apply head_unit |].
  rewrite consumed_app.
  change (gs ++ [num; u])%list with (gs ++ ([num] ++ [u]))%list in K.
  rewrite List.app_assoc in K.
  destruct U as [->|[->| ->]]; cbn -[consumed]; rewrite ?strip_prefix_app;
    cbn -[consumed].
  - change (String "m" (String "s" rest)) with ("ms" ++ rest).
    now rewrite consumed_app, K.
  - change (String micro (String "s" rest)) with (micro_s ++ rest).
    now rewrite consumed_app, K.
  - change (String "s" rest) with ("s" ++ rest).
    now rewrite consumed_app, K.
Qed.

Lemma head_in_app c a b :
  head_in c a = false -> head_in c b = false -> head_in c (a ++ b) = false.
Proof. destruct a; simpl; auto. Qed.

(** A thread-count token is matched with the first execution-time field
    after it. *)
Lemma pattern_match d gap num u rest :
  d <> EmptyString -> all_in is_digit d = true ->
  head_in is_digit gap = false ->
  free_of_time gap ("Execution Time: " ++ num ++ u ++ rest) = true ->
  num <> EmptyString -> all_in is_digit_or_dot num = true -> is_unit u ->
  match_here pattern
    ("Threads: " ++ d ++ gap ++ "Execution Time: " ++ num ++ u ++ rest)
  = Some (rest, [d; num; u]).
Proof.
  intros Ne All Hd F Nn Alln U. unfold match_here, pattern. cbn [run].
  rewrite strip_prefix_app.
  apply plus_greedy_first; [assumption | assumption | |].
  - apply head_in_app; [assumption | reflexivity].
  - rewrite consumed_app. rewrite star_lazy_skip by assumption.
    apply star_lazy_here. now apply time_field_run.
Qed.

End PatternFacts.

(** ** Floats *)

Module FloatFacts.

Lemma nonneg_cases x :
  nonneg x <->
  (exists s, x = S754_zero s) \/ x = S754_infinity false
  \/ exists m e, x = S754_finite false m e.
Proof.
  unfold nonneg, fle, SFleb, fzero. split.
  - destruct x as [s|[|]| |[|] m e]; simpl; intros H; try discriminate; eauto.
  - intros [(s & ->)|[->|(m & e & ->)]]; reflexivity.
Qed.

Section Rounding.
Variables p emx : Z.

Lemma shr_1_nonneg mrs : 0 <= shr_m mrs -> 0 <= shr_m (shr_1 mrs).
Proof.
  destruct mrs as [m r s]. simpl. intros H.
  destruct m as [|[q|q|]|q]; simpl; lia.
Qed.

Lemma iter_pos_invariant {A : Type} (P : A -> Prop) (f : A -> A) :
  (forall x, P x -> P (f x)) -> forall n x, P x -> P (iter_pos f n x).
Proof.
  intros Hf. induction n as [n IH|n IH|]; intros x Hx; simpl; auto.
Qed.

Lemma shr_fexp_nonneg m e l :
  0 <= m -> 0 <= shr_m (fst (shr_fexp p emx m e l)).
Proof.
  intros H. unfold shr_fexp, shr.
  assert (H0 : 0 <= shr_m (shr_record_of_loc m l))
    by (destruct l as [|[| |]]; exact H).
  destruct (fexp p emx (Zdigits2 m + e) - e) as [|n|n]; simpl; try exact H0.
  apply (iter_pos_invariant (fun mrs => 0 <= shr_m mrs)); [|exact H0].
  apply shr_1_nonneg.
Qed.

Lemma round_nearest_even_nonneg m l : 0 <= m -> 0 <= round_nearest_even m l.
Proof.
  intros H. destruct l as [|[| |]]; simpl; try lia.
  destruct (Z.even m); lia.
Qed.

(** Rounding a mantissa that is not negative gives no NaN and keeps the
    sign. *)
Lemma binary_round_aux_cases s m e l :
  0 <= m ->
  let x := binary_round_aux p emx s m e l in
  x = S754_zero s \/ x = S754_infinity s \/ exists m' e', x = S754_finite s m' e'.
Proof.
  intros H. unfold binary_round_aux.
  pose proof (shr_fexp_nonneg m e l H) as H1.
  destruct (shr_fexp p emx m e l) as [mrs' e'] eqn:E1. simpl in H1.
  pose proof (shr_fexp_nonneg _ e' loc_Exact
                (round_nearest_even_nonneg _ (loc_of_shr_record mrs') H1)) as H2.
  destruct (shr_fexp p emx (round_nearest_even (shr_m mrs') (loc_of_shr_record mrs'))
              e' loc_Exact) as [mrs'' e''] eqn:E2.
  simpl in H2. cbv zeta.
  destruct (shr_m mrs'') as [|q|q]; [auto | | lia].
  destruct (e'' <=? emx - p); eauto.
Qed.
End Rounding.

Lemma fmul_nonneg x m e : nonneg x -> nonneg (fmul x (S754_finite false m e)).
Proof.
  intros H. apply nonneg_cases in H. apply nonneg_cases.
  destruct H as [(s & ->)|[->|(mx & ex & ->)]]; [simpl; eauto | simpl; eauto |].
  pose proof (binary_round_aux_cases prec emax false (Zpos (mx * m)) (ex + e) loc_Exact)
    as H.
  cbv zeta in H. unfold fmul, SFmul. cbn [xorb].
  destruct H as [H|[H|(m' & e' & H)]]; [lia | | |]; rewrite H; eauto.
Qed.

Lemma div_core_nonneg m1 e1 m2 e2 :
  0 <= fst (fst (SFdiv_core_binary prec emax (Zpos m1) e1 (Zpos m2) e2)).
Proof.
  unfold SFdiv_core_binary.
  set (e' := Z.min _ _). set (sh := e1 - e2 - e').
  assert (H : 0 <= match sh with Zpos _ => Z.shiftl (Zpos m1) sh | 0 => Zpos m1 | Zneg _ => 0 end).
  { destruct sh; try lia. apply Z.shiftl_nonneg. lia. }
  revert H. generalize (match sh with Zpos _ => Z.shiftl (Zpos m1) sh | 0 => Zpos m1 | Zneg _ => 0 end).
  intros m' H.
  pose proof (Z.div_pos m' (Zpos m2) H ltac:(lia)) as Q.
  unfold Z.div in Q. destruct (Z.div_eucl m' (Zpos m2)) as [q r]. exact Q.
Qed.

Lemma fdiv_finite_cases s1 m1 e1 s2 m2 e2 :
  let x := fdiv (S754_finite s1 m1 e1) (S754_finite s2 m2 e2) in
  let s := xorb s1 s2 in
  x = S754_zero s \/ x = S754_infinity s \/ exists m' e', x = S754_finite s m' e'.
Proof.
  unfold fdiv, SFdiv.
  pose proof (div_core_nonneg m1 e1 m2 e2) as H.
  destruct (SFdiv_core_binary prec emax (Zpos m1) e1 (Zpos m2) e2) as [[mz ez] lz].
  simpl in H. now apply binary_round_aux_cases.
Qed.

Lemma fdiv_nonneg x m e : nonneg x -> nonneg (fdiv x (S754_finite false m e)).
Proof.
  intros H. apply nonneg_cases in H. apply nonneg_cases.
  destruct H as [(s & ->)|[->|(mx & ex & ->)]]; [simpl; eauto | simpl; eauto |].
  pose proof (fdiv_finite_cases false mx ex false m e) as H. cbv zeta in H.
  cbn [xorb] in H. destruct H as [H|[H|(m' & e' & H)]]; rewrite H; eauto.
Qed.

Lemma float_of_decimal_nonneg n k : nonneg (float_of_decimal n k).
Proof.
  apply nonneg_cases. unfold float_of_decimal.
  destruct n as [|m|m]; [left; now exists false | | left; now exists false].
  pose proof (fdiv_finite_cases false m 0 false (pow10 k) 0) as H. cbv zeta in H.
  cbn [xorb] in H. destruct H as [H|[H|(m' & e' & H)]]; rewrite H; eauto.
Qed.

(** *** The float of a non-zero int is not zero *)

Lemma digits2_lower m : 2 ^ (Zpos (digits2_pos m) - 1) <= Zpos m.
Proof.
  induction m as [m IH|m IH|]; cbn [digits2_pos]; [| |simpl; lia].
  all: rewrite Pos2Z.inj_succ;
    replace (Z.succ (Zpos (digits2_pos m)) - 1) with (Z.succ (Zpos (digits2_pos m) - 1))
      by lia;
    rewrite Z.pow_succ_r by lia; lia.
Qed.

Lemma shr_1_m mrs : 0 <= shr_m mrs -> shr_m (shr_1 mrs) = shr_m mrs / 2.
Proof.
  destruct mrs as [m r s]. cbn [shr_m]. intros H.
  destruct m as [|[q|q|]|q]; cbn [shr_1 shr_m]; try lia; try reflexivity.
  - apply Z.div_unique with 1; lia.
  - apply Z.div_unique with 0; lia.
Qed.

Lemma iter_shr_m n : forall mrs,
  0 <= shr_m mrs -> shr_m (iter_pos shr_1 n mrs) = shr_m mrs / 2 ^ Zpos n.
Proof.
  assert (Inv : forall k mrs, 0 <= shr_m mrs -> 0 <= shr_m (iter_pos shr_1 k mrs)).
  { intros k mrs. apply (iter_pos_invariant (fun x => 0 <= shr_m x)). apply shr_1_nonneg. }
  induction n as [n IH|n IH|]; intros mrs H; cbn [iter_pos].
  - rewrite IH by (apply Inv; now apply shr_1_nonneg).
    rewrite IH by now apply shr_1_nonneg.
    rewrite shr_1_m by assumption.
    rewrite !Z.div_div by lia.
    f_equal. replace (Zpos n~1) with (1 + Zpos n + Zpos n) by lia.
    rewrite !Z.pow_add_r by lia. lia.
  - rewrite IH by now apply Inv. rewrite IH by assumption.
    rewrite Z.div_div by lia.
    f_equal. replace (Zpos n~0) with (Zpos n + Zpos n) by lia.
    rewrite Z.pow_add_r by lia. lia.
  - now rewrite shr_1_m.
Qed.

Section NonZero.
Variables p emx : Z.
Hypothesis p_pos : 0 < p.

Lemma shr_fexp_pos m e l :
  emin p emx <= e ->
  0 < shr_m (fst (shr_fexp p emx (Zpos m) e l))
  /\ e <= snd (shr_fexp p emx (Zpos m) e l).
Proof.
  intros He. unfold shr_fexp, shr.
  assert (H0 : shr_m (shr_record_of_loc (Zpos m) l) = Zpos m)
    by (destruct l as [|[| |]]; reflexivity).
  destruct (fexp p emx (Zdigits2 (Zpos m) + e) - e) as [|n|n] eqn:N;
    cbn [fst snd]; rewrite ?H0; try lia.
  split; [|lia].
  rewrite iter_shr_m by (rewrite H0; lia). rewrite H0.
  apply Z.div_str_pos. split; [lia|].
  apply Z.le_trans with (2 ^ (Zpos (digits2_pos m) - 1)); [|apply digits2_lower].
  apply Z.pow_le_mono_r; [lia|].
  unfold fexp in N. cbn [Zdigits2] in N. lia.
Qed.

Lemma binary_round_aux_nonzero s m e l :
  emin p emx <= e ->
  forall s', binary_round_aux p emx s (Zpos m) e l <> S754_zero s'.
Proof.
  intros He s'. unfold binary_round_aux.
  destruct (shr_fexp_pos m e l He) as [H1 H2].
  destruct (shr_fexp p emx (Zpos m) e l) as [mrs' e'] eqn:E1. cbn [fst snd] in H1, H2.
  assert (R : 0 < round_nearest_even (shr_m mrs') (loc_of_shr_record mrs')).
  { destruct (loc_of_shr_record mrs') as [|[| |]]; cbn [round_nearest_even]; try lia.
    destruct (Z.even (shr_m mrs')); lia. }
  destruct (round_nearest_even (shr_m mrs') (loc_of_shr_record mrs')) as [|m1|m1];
    try lia.
  destruct (shr_fexp_pos m1 e' loc_Exact ltac:(lia)) as [H3 _].
  destruct (shr_fexp p emx (Zpos m1) e' loc_Exact) as [mrs'' e''].
  cbn [fst] in H3. cbv zeta.
  destruct (shr_m mrs'') as [|q|q]; try lia.
  destruct (e'' <=? emx - p); discriminate.
Qed.

Lemma binary_round_nonzero s m e :
  emin p emx <= e -> forall s', binary_round p emx s m e <> S754_zero s'.
Proof.
  intros He s'. unfold binary_round, shl_align.
  destruct (fexp p emx (Zpos (digits2_pos m) + e) - e) as [|d|d] eqn:D;
    apply binary_round_aux_nonzero; try assumption.
  unfold fexp in *. lia.
Qed.
End NonZero.

Lemma float_of_int_nonzero t y :
  t <> 0 -> float_of_int t = Ok y -> feq y fzero = false.
Proof.
  intros Ht H. unfold float_of_int, binary_normalize in H.
  assert (Z : forall s', y <> S754_zero s').
  { intros s' ->. destruct t as [|m|m]; [congruence| |].
    - pose proof (binary_round_nonzero prec emax eq_refl false m 0 ltac:(vm_compute; discriminate) s') as N.
      destruct (binary_round prec emax false m 0); congruence.
    - pose proof (binary_round_nonzero prec emax eq_refl true m 0 ltac:(vm_compute; discriminate) s') as N.
      destruct (binary_round prec emax true m 0); congruence. }
  destruct y as [s'| | |]; [now destruct (Z s') | destruct s; reflexivity
                            | reflexivity | destruct s; reflexivity].
Qed.

(** *** Ints below [2^1023] have a float *)

Lemma digits2_upper m : Zpos m < 2 ^ Zpos (digits2_pos m).
Proof.
  induction m as [m IH|m IH|]; cbn [digits2_pos]; [| |simpl; lia].
  all: rewrite Pos2Z.inj_succ, Z.pow_succ_r by lia; lia.
Qed.

Lemma Zdigits2_upper m : 0 <= m -> m < 2 ^ Zdigits2 m.
Proof.
  destruct m as [|q|q]; intros H; [simpl; lia | apply digits2_upper | lia].
Qed.

Lemma Zdigits2_le m k : 0 <= m -> 0 <= k -> m < 2 ^ k -> Zdigits2 m <= k.
Proof.
  destruct m as [|q|q]; intros Hm Hk H; [simpl; lia | | lia].
  cbn [Zdigits2]. pose proof (digits2_lower q) as L.
  assert (P : 2 ^ (Zpos (digits2_pos q) - 1) < 2 ^ k) by lia.
  apply Z.pow_lt_mono_r_iff in P; lia.
Qed.

Lemma iter_xO_pow m d : Zpos (Pos.iter xO m d) = Zpos m * 2 ^ Zpos d.
Proof.
  induction d as [|d IH] using Pos.peano_ind.
  - simpl. lia.
  - rewrite Pos.iter_succ, Pos2Z.inj_xO, IH, Pos2Z.inj_succ, Z.pow_succ_r by lia. lia.
Qed.

(** The exponent and the mantissa that a shift to the format leaves. *)
Lemma shr_fexp_bound m e l :
  0 <= m ->
  let r := shr_fexp prec emax m e l in
  snd r = Z.max e (fexp prec emax (Zdigits2 m + e))
  /\ 0 <= shr_m (fst r)
  /\ shr_m (fst r) < 2 ^ Z.max 0 (Zdigits2 m + e - snd r).
Proof.
  intros Hm. pose proof (shr_fexp_nonneg prec emax m e l Hm) as N.
  pose proof (Zdigits2_upper m Hm) as U.
  assert (D : 0 <= Zdigits2 m) by (destruct m; simpl; lia).
  unfold shr_fexp, shr in *.
  assert (H0 : shr_m (shr_record_of_loc m l) = m)
    by (destruct l as [|[| |]]; reflexivity).
  destruct (fexp prec emax (Zdigits2 m + e) - e) as [|n|n] eqn:E;
    cbn [fst snd] in *; rewrite ?H0.
  - split; [lia|]. split; [lia|].
    replace (Z.max 0 (Zdigits2 m + e - e)) with (Zdigits2 m) by lia. exact U.
  - split; [lia|]. split; [exact N|].
    rewrite iter_shr_m by (rewrite H0; lia). rewrite H0.
    destruct (Z_le_gt_dec (Zpos n) (Zdigits2 m)) as [Le|Gt].
    + replace (Z.max 0 (Zdigits2 m + e - (e + Zpos n))) with (Zdigits2 m - Zpos n) by lia.
      apply Z.div_lt_upper_bound; [lia|].
      rewrite <- Z.pow_add_r by lia.
      now replace (Zpos n + (Zdigits2 m - Zpos n)) with (Zdigits2 m) by lia.
    + replace (Z.max 0 (Zdigits2 m + e - (e + Zpos n))) with 0 by lia.
      rewrite Z.div_small; [simpl; lia|]. split; [lia|].
      apply Z.lt_le_trans with (2 ^ Zdigits2 m); [exact U|].
      apply Z.pow_le_mono_r; lia.
  - split; [lia|]. split; [lia|].
    replace (Z.max 0 (Zdigits2 m + e - e)) with (Zdigits2 m) by lia. exact U.
Qed.

(** A value below [2^1023] does not round to an infinity. *)
Lemma binary_round_aux_finite s m e l :
  0 <= m -> e <= 970 -> Zdigits2 m + e <= 1023 ->
  forall s', binary_round_aux prec emax s m e l <> S754_infinity s'.
Proof.
  intros Hm He Hd s'. unfold binary_round_aux.
  destruct (shr_fexp_bound m e l Hm) as (E1 & N1 & U1).
  destruct (shr_fexp prec emax m e l) as [mrs' e'] eqn:S1. cbn [fst snd] in *.
  set (m2 := round_nearest_even (shr_m mrs') (loc_of_shr_record mrs')).
  assert (E1' : e' <= 970 /\ Zdigits2 m + e - e' <= 53)
    by (unfold fexp, SpecFloat.emin, prec, emax in E1; lia).
  assert (B1 : shr_m mrs' < 2 ^ 53).
  { apply Z.lt_le_trans with (2 ^ Z.max 0 (Zdigits2 m + e - e')); [exact U1|].
    apply Z.pow_le_mono_r; lia. }
  assert (B2 : 0 <= m2 < 2 ^ 54).
  { unfold m2. destruct (loc_of_shr_record mrs') as [|[| |]]; cbn [round_nearest_even];
      try destruct (Z.even (shr_m mrs')); lia. }
  assert (D2 : Zdigits2 m2 <= 54) by (apply Zdigits2_le; lia).
  destruct (shr_fexp_bound m2 e' loc_Exact ltac:(lia)) as (E2 & _ & _).
  destruct (shr_fexp prec emax m2 e' loc_Exact) as [mrs'' e''] eqn:S2.
  cbn [fst snd] in *. cbv zeta.
  assert (E2' : e'' <= 971)
    by (unfold fexp, SpecFloat.emin, prec, emax in E2; lia).
  destruct (shr_m mrs'') as [|q|q]; try discriminate.
  replace (e'' <=? emax - prec) with true; [discriminate|].
  symmetry. apply Z.leb_le. unfold emax, prec. lia.
Qed.

Lemma float_of_int_in_range t :
  Z.abs t < 2 ^ 1023 -> exists y, float_of_int t = Ok y.
Proof.
  intros Ht. unfold float_of_int.
  assert (F : forall s', binary_normalize prec emax t 0 false <> S754_infinity s').
  { intros s'. destruct t as [|m|m]; cbn [binary_normalize]; [discriminate| |].
    all: assert (Dm : Zpos (digits2_pos m) <= 1023)
      by (apply (Zdigits2_le (Zpos m)); lia).
    all: unfold binary_round, shl_align.
    all: destruct (fexp prec emax (Zpos (digits2_pos m) + 0) - 0) as [|d|d] eqn:E;
      apply binary_round_aux_finite; cbn [Zdigits2];
      unfold fexp, SpecFloat.emin, prec, emax in *; try lia.
    all: assert (Q : Zdigits2 (Zpos (Pos.iter xO m d)) <= Zpos (digits2_pos m) + Zpos d);
      [|cbn [Zdigits2] in Q; lia].
    all: apply Zdigits2_le; try lia.
    all: rewrite iter_xO_pow, Z.pow_add_r by lia.
    all: apply Z.mul_lt_mono_pos_r; [lia | apply digits2_upper]. }
  destruct (binary_normalize prec emax t 0 false) as [s'|s'| |s' m e] eqn:B; eauto.
  now destruct (F s').
Qed.

(** *** A finite float divided by itself *)

Lemma div_core_self m e :
  SFdiv_core_binary prec emax (Zpos m) e (Zpos m) e = (2 ^ 53, -53, loc_Exact).
Proof.
  unfold SFdiv_core_binary.
  replace (Zdigits2 (Zpos m) + e - (Zdigits2 (Zpos m) + e)) with 0 by lia.
  replace (e - e) with 0 by lia.
  change (Z.min (fexp prec emax 0) 0) with (-53).
  change (0 - -53) with 53.
  cbv iota. rewrite Z.shiftl_mul_pow2 by lia.
  pose proof (Z.div_mul (2 ^ 53) (Zpos m) ltac:(lia)) as Q.
  pose proof (Z.mod_mul (2 ^ 53) (Zpos m) ltac:(lia)) as R.
  rewrite (Z.mul_comm (2 ^ 53)) in Q, R.
  unfold Z.div in Q. unfold Z.modulo in R.
  destruct (Z.div_eucl (Zpos m * 2 ^ 53) (Zpos m)) as [q r].
  subst q r. unfold new_location, new_location_even, new_location_odd.
  destruct (Z.even (Zpos m)); reflexivity.
Qed.

Lemma fdiv_self s m e : fdiv (S754_finite s m e) (S754_finite s m e) = f1_0.
Proof.
  unfold fdiv, SFdiv. rewrite div_core_self.
  destruct s; vm_compute; reflexivity.
Qed.

(** *** The order of floats *)

Ltac cmp_cases :=
  repeat match goal with
         | H : context [Pos.compare_cont Eq ?a ?b] |- _ =>
             change (Pos.compare_cont Eq a b) with (Pos.compare a b) in H
         | |- context [Pos.compare_cont Eq ?a ?b] =>
             change (Pos.compare_cont Eq a b) with (Pos.compare a b)
         end;
  repeat match goal with
         | H : context [Z.compare ?a ?b] |- _ => destruct (Z.compare_spec a b)
         | |- context [Z.compare ?a ?b] => destruct (Z.compare_spec a b)
         | H : context [Pos.compare ?a ?b] |- _ => destruct (Pos.compare_spec a b)
         | |- context [Pos.compare ?a ?b] => destruct (Pos.compare_spec a b)
         end;
  simpl in *; try discriminate; try reflexivity; try lia.

Ltac float_cases :=
  repeat match goal with
         | x : float |- _ => destruct x as [[|]|[|]| |[|] ? ?]
         | x : spec_float |- _ => destruct x as [[|]|[|]| |[|] ? ?]
         end;
  unfold flt, fle, feq, SFltb, SFleb, SFeqb in *; simpl in *;
  try discriminate; try reflexivity; try tauto.

Lemma flt_irrefl a : flt a a = false.
Proof. float_cases; cmp_cases. Qed.

Lemma flt_trans a b c : flt a b = true -> flt b c = true -> flt a c = true.
Proof. intros H1 H2. float_cases; cmp_cases. Qed.

Lemma feq_trans a b c : feq a b = true -> feq b c = true -> feq a c = true.
Proof. intros H1 H2. float_cases; cmp_cases. Qed.

Lemma feq_flt a b c : feq a b = true -> flt a c = true -> flt b c = true.
Proof. intros H1 H2. float_cases; cmp_cases. Qed.


End FloatFacts.

Example float_of_int_100 : float_of_int 100 = Ok f100.
Proof. reflexivity. Qed.

Example float_of_int_1000 : float_of_int 1000 = Ok f1000.
Proof. reflexivity. Qed.

Example float_of_int_1 : float_of_int 1 = Ok f1_0.
Proof. reflexivity. Qed.

(** ** [max] and [index] *)

Module MaxFacts.
Import FloatFacts.

Lemma max_from_spec l : forall pre best,
  nth_error (pre ++ l)%list (fst best) = Some (snd best) ->
  (forall x, In x pre -> flt (snd best) x = false) ->
  let r := max_from l (List.length pre) best in
  nth_error (pre ++ l)%list (fst r) = Some (snd r)
  /\ forall x, In x (pre ++ l)%list -> flt (snd r) x = false.
Proof.
  induction l as [|x l IH]; intros pre best Hn Hm; cbn [max_from].
  - rewrite List.app_nil_r in *. auto.
  - replace (S (List.length pre)) with (List.length (pre ++ [x])%list)
      by (rewrite List.length_app; simpl; lia).
    replace (pre ++ x :: l)%list with ((pre ++ [x]) ++ l)%list in *
      by (now rewrite <- List.app_assoc).
    apply IH.
    + destruct (flt (snd best) x); [|assumption].
      cbn [fst snd]. rewrite <- List.app_assoc. simpl.
      now rewrite nth_error_app2, Nat.sub_diag by lia.
    + intros y Hy. apply in_app_or in Hy.
      destruct (flt (snd best) x) eqn:Lt; cbn [snd].
      * destruct Hy as [Hy|[<-|[]]]; [|apply flt_irrefl].
        destruct (flt x y) eqn:Lt'; [|reflexivity].
        rewrite <- (Hm y Hy). symmetry. now apply flt_trans with x.
      * destruct Hy as [Hy|[<-|[]]]; auto.
Qed.

Lemma index_from_spec l : forall pre v,
  (List.length pre <= fst v < List.length pre + List.length l)%nat ->
  exists idx,
    index_from l (List.length pre) v = Ok idx
    /\ (List.length pre <= idx <= fst v)%nat
    /\ (idx <> fst v ->
        exists s, nth_error (pre ++ l)%list idx = Some s /\ feq s (snd v) = true)
    /\ forall j x, (List.length pre <= j < idx)%nat ->
                   nth_error (pre ++ l)%list j = Some x -> feq x (snd v) = false.
Proof.
  induction l as [|x l IH]; intros pre v H; [simpl in H; lia|].
  cbn [index_from].
  destruct (Nat.eqb (List.length pre) (fst v)) eqn:E; cbn [orb].
  - apply Nat.eqb_eq in E. exists (List.length pre).
    repeat split; try lia.
  - apply Nat.eqb_neq in E. destruct (feq x (snd v)) eqn:Q.
    + exists (List.length pre). repeat split; try lia.
      intros _. exists x. split; [|assumption].
      now rewrite nth_error_app2, Nat.sub_diag by lia.
    + replace (S (List.length pre)) with (List.length (pre ++ [x])%list)
        by (rewrite List.length_app; simpl; lia).
      destruct (IH (pre ++ [x])%list v) as (idx & I1 & I2 & I3 & I4).
      { rewrite List.length_app. simpl in *. lia. }
      rewrite List.length_app in I2. simpl in I2.
      rewrite <- List.app_assoc in I3, I4. simpl in I3, I4.
      exists idx. repeat split; try assumption; try lia.
      intros j y Hj Hy.
      destruct (Nat.eq_dec j (List.length pre)) as [->|Ne].
      * rewrite nth_error_app2, Nat.sub_diag in Hy by lia.
        simpl in Hy. now injection Hy as <-.
      * apply (I4 j y); [rewrite List.length_app; simpl; lia | assumption].
Qed.

(** The position that [speedups.index(max(speedups))] finds: its element is
    exceeded by none, and equalled by none before it. *)
Lemma index_max speedups :
  speedups <> [] ->
  exists m idx s,
    py_max speedups = Ok m /\ index speedups m = Ok idx
    /\ nth_error speedups idx = Some s
    /\ (forall x, In x speedups -> flt s x = false)
    /\ forall j x, (j < idx)%nat -> nth_error speedups j = Some x -> feq x s = false.
Proof.
  destruct speedups as [|x0 l]; [congruence|]. intros _.
  cbn [py_max]. unfold index.
  destruct (max_from_spec l [x0] (0%nat, x0) eq_refl) as [Mn Mm].
  { intros x [<-|[]]. apply flt_irrefl. }
  cbn [List.length] in Mn, Mm. change ([x0] ++ l)%list with (x0 :: l) in Mn, Mm.
  set (v := max_from l 1 (0%nat, x0)) in *.
  destruct (index_from_spec (x0 :: l) [] v) as (idx & I1 & I2 & I3 & I4).
  { cbn [List.length]. split; [lia|].
    apply (nth_error_Some (x0 :: l)). rewrite Mn. discriminate. }
  cbn [List.length app] in I1, I2, I3, I4.
  destruct (Nat.eq_dec idx (fst v)) as [E|Ne].
  - exists v, idx, (snd v). rewrite E at 2. repeat split; try assumption.
    intros j x Hj. apply I4. lia.
  - destruct (I3 Ne) as (s & Hs & Q). exists v, idx, s. repeat split; try assumption.
    + intros x Hx. destruct (flt s x) eqn:Lt; [|reflexivity].
      rewrite <- (Mm x Hx). symmetry. now apply feq_flt with s.
    + intros j x Hj Hx. destruct (feq x s) eqn:Q'; [|reflexivity].
      rewrite <- (I4 j x ltac:(lia) Hx). symmetry. now apply feq_trans with s.
Qed.

End MaxFacts.

(** ** [parse_results] *)

Module ParseFacts.
Import Re ReFacts PatternFacts FloatFacts.

Lemma digit_value_nonneg a : is_digit a = true -> 0 <= digit_value a.
Proof.
  unfold is_digit, digit_value. intros H. apply andb_prop in H.
  destruct H as [H _]. apply N.leb_le in H. lia.
Qed.

Lemma decimal_value_nonneg s : forall acc,
  0 <= acc -> all_digits s = true -> 0 <= decimal_value acc s.
Proof.
  induction s as [|a s IH]; intros acc Ha H; cbn [decimal_value all_digits] in *;
    [assumption|].
  apply andb_prop in H. destruct H as [Hd Hs].
  apply IH; [|assumption]. pose proof (digit_value_nonneg a Hd). lia.
Qed.

Lemma py_int_nonneg s t : py_int s = Ok t -> 0 <= t.
Proof.
  unfold py_int. destruct s as [|a s]; [discriminate|].
  destruct (all_digits (String a s)) eqn:D; [|discriminate].
  destruct (max_str_digits <? String.length (String a s))%nat; [discriminate|].
  intros H. injection H as <-. apply (decimal_value_nonneg (String a s) 0); [lia | exact D].
Qed.

Lemma py_float_nonneg s v : py_float s = Ok v -> nonneg v.
Proof.
  unfold py_float. destruct (split_point s) as [i f].
  destruct (i ++ _) as [|a ds]; [discriminate|].
  destruct (all_digits (String a ds)); [|discriminate].
  intros H. injection H as <-. apply float_of_decimal_nonneg.
Qed.

Lemma mul_int_1000 v : mul_int v 1000 = Ok (fmul v f1000).
Proof. reflexivity. Qed.

Lemma truediv_int_1000 v : truediv_int v 1000 = Ok (fdiv v f1000).
Proof. reflexivity. Qed.

Lemma to_ms_nonneg v u x : nonneg v -> to_ms v u = Ok x -> nonneg x.
Proof.
  unfold to_ms. intros Hv.
  destruct (String.eqb u "s").
  - rewrite mul_int_1000. intros H. injection H as <-. now apply fmul_nonneg.
  - destruct (String.eqb u micro_s).
    + rewrite truediv_int_1000. intros H. injection H as <-. now apply fdiv_nonneg.
    + intros H. now injection H as <-.
Qed.

Lemma sample_of_match_nonneg m t x :
  sample_of_match m = Ok (t, x) -> 0 <= t /\ nonneg x.
Proof.
  unfold sample_of_match.
  destruct (py_int (group m 0)) as [t'|] eqn:I; [|discriminate].
  destruct (py_float (group m 1)) as [v|] eqn:F; [|discriminate].
  cbn [bind]. destruct (to_ms v (group m 2)) as [x'|] eqn:T; [|discriminate].
  cbn [bind]. intros H. injection H as <- <-. split.
  - now apply py_int_nonneg with (group m 0).
  - apply to_ms_nonneg with v (group m 2); [|assumption].
    now apply py_float_nonneg with (group m 1).
Qed.

Lemma for_matches_nonneg ms : forall ts xs ts' xs',
  for_matches ms ts xs = Ok (ts', xs') ->
  List.length ts = List.length xs ->
  Forall (fun t => 0 <= t) ts -> Forall nonneg xs ->
  List.length ts' = List.length xs'
  /\ Forall (fun t => 0 <= t) ts' /\ Forall nonneg xs'.
Proof.
  induction ms as [|m ms IH]; intros ts xs ts' xs' H L Ht Hx; cbn [for_matches] in H.
  - injection H as <- <-. auto.
  - destruct (sample_of_match m) as [[t x]|] eqn:S; [|discriminate].
    cbn [bind fst snd] in H. apply sample_of_match_nonneg in S. destruct S as [S1 S2].
    apply IH in H; [assumption | | |].
    + rewrite !List.length_app. simpl. lia.
    + apply Forall_app. auto.
    + apply Forall_app. auto.
Qed.

(** The loop gives the samples of the matches after those it starts with. *)
Lemma for_matches_acc ms : forall ts xs,
  for_matches ms ts xs
  = (r <- for_matches ms [] [] ;; Ok ((ts ++ fst r)%list, (xs ++ snd r)%list)).
Proof.
  induction ms as [|m ms IH]; intros ts xs; cbn [for_matches].
  - cbn [bind fst snd]. now rewrite !List.app_nil_r.
  - destruct (sample_of_match m) as [[t x]|]; [|reflexivity].
    cbn [bind fst snd]. rewrite (IH (ts ++ [t])%list), (IH ([] ++ [t])%list).
    destruct (for_matches ms [] []) as [[a b]|]; [|reflexivity].
    cbn [bind fst snd]. now rewrite <- !List.app_assoc.
Qed.

Lemma for_matches_cons m ms :
  for_matches (m :: ms) [] []
  = (sample <- sample_of_match m ;;
     r <- for_matches ms [] [] ;;
     Ok (fst sample :: fst r, snd sample :: snd r)).
Proof.
  cbn [for_matches]. destruct (sample_of_match m) as [[t x]|]; [|reflexivity].
  cbn [bind fst snd]. rewrite for_matches_acc. reflexivity.
Qed.

End ParseFacts.

(** ** [calculate_speedup] *)

Module SpeedupFacts.
Import FloatFacts.

Lemma mapM_truediv base times :
  Forall (fun t => feq t fzero = false) times ->
  mapM (fun t => truediv base t) times = Ok (map (fdiv base) times).
Proof.
  induction 1 as [|t times Ht _ IH]; [reflexivity|].
  cbn [mapM map]. unfold truediv at 1. rewrite Ht. cbn [bind].
  now rewrite IH.
Qed.

(** The guard: an empty list of times, or a first time that is zero, gives
    the empty list, and nothing is divided. *)
Lemma calculate_speedup_guard threads times :
  times = [] \/ (exists base rest, times = base :: rest /\ feq base fzero = true) ->
  calculate_speedup threads times = Ok [].
Proof.
  intros [->|(base & rest & -> & Z)]; [reflexivity|].
  unfold calculate_speedup. now rewrite Z.
Qed.


End SpeedupFacts.

(** ** [calculate_efficiency] *)

Module EfficiencyFacts.
Import FloatFacts.

Lemma zip_length {A B : Type} (l1 : list A) : forall l2 : list B,
  List.length (zip l1 l2) = Nat.min (List.length l1) (List.length l2).
Proof.
  induction l1 as [|x l1 IH]; intros [|y l2]; simpl; auto.
Qed.

(** The efficiency of a pair, when the thread count is not zero and has a
    float. *)
Lemma efficiency_of_pair s t y :
  t <> 0 -> float_of_int t = Ok y ->
  (q <- truediv_int s t ;; mul_int q 100) = Ok (fmul (fdiv s y) f100).
Proof.
  intros Ht Hy. unfold truediv_int. rewrite Hy. cbn [bind].
  unfold truediv. now rewrite (float_of_int_nonzero t y Ht Hy).
Qed.

Lemma efficiencies speedups : forall threads,
  (forall s t, In (s, t) (zip speedups threads) ->
               t <> 0 /\ exists y, float_of_int t = Ok y) ->
  exists effs,
    calculate_efficiency threads speedups = Ok effs
    /\ List.length effs = Nat.min (List.length speedups) (List.length threads)
    /\ forall i s t,
         nth_error speedups i = Some s -> nth_error threads i = Some t ->
         exists y, float_of_int t = Ok y
                   /\ nth_error effs i = Some (fmul (fdiv s y) f100).
Proof.
  unfold calculate_efficiency.
  induction speedups as [|s0 speedups IH]; intros threads H.
  - exists []. split; [reflexivity | split; [reflexivity|]].
    intros [|i] s t Hs; discriminate.
  - destruct threads as [|t0 threads].
    + exists []. split; [reflexivity | split; [reflexivity|]].
      intros [|i] s t _ Ht; discriminate.
    + destruct (IH threads) as (effs & E & L & N).
      { intros s t Hin. apply (H s t). now right. }
      destruct (H s0 t0 (or_introl eq_refl)) as (Ht0 & y0 & Hy0).
      exists (fmul (fdiv s0 y0) f100 :: effs).
      cbn [zip mapM]. rewrite (efficiency_of_pair s0 t0 y0 Ht0 Hy0).
      cbn [bind]. rewrite E. cbn [bind]. split; [reflexivity | split].
      * simpl. now rewrite L.
      * intros [|i] s t Hs Ht; cbn [nth_error] in *.
        -- injection Hs as <-. injection Ht as <-. now exists y0.
        -- now apply N.
Qed.

End EfficiencyFacts.

(** ** The branches of the narrative *)

Module BranchFacts.
Import FloatFacts.

Example f1_5_is_1_5 : float_of_decimal 15 1 = f1_5.
Proof. reflexivity. Qed.

Example f2_0_is_2_0 : float_of_decimal 20 1 = f2_0.
Proof. reflexivity. Qed.






End BranchFacts.

(** ** The limit on the numerals of thread counts *)

Module FormatFacts.

Lemma str_int_ok n : Z.abs n < str_limit -> str_int n = Ok (decimal_numeral n).
Proof.
  intros H. unfold str_int.
  destruct (Z.leb_spec str_limit (Z.abs n)) as [C|_]; [lia | reflexivity].
Qed.

Lemma str_int_raises n : str_limit <= Z.abs n -> str_int n = Raise ValueError.
Proof.
  intros H. unfold str_int.
  destruct (Z.leb_spec str_limit (Z.abs n)) as [_|C]; [reflexivity | lia].
Qed.

Lemma str_int_cases n :
  (Z.abs n < str_limit /\ str_int n = Ok (decimal_numeral n))
  \/ (str_limit <= Z.abs n /\ str_int n = Raise ValueError).
Proof.
  destruct (Z.lt_ge_cases (Z.abs n) str_limit) as [H|H].
  - left. split; [exact H | now apply str_int_ok].
  - right. split; [exact H | now apply str_int_raises].
Qed.

Lemma table_row_cases t time speedup eff :
  (Z.abs t < str_limit /\ exists line, table_row (t, time, speedup, eff) = Ok line)
  \/ (str_limit <= Z.abs t /\ table_row (t, time, speedup, eff) = Raise ValueError).
Proof.
  unfold table_row, format_d.
  destruct (str_int_cases t) as [[H E]|[H E]]; rewrite E; cbn [bind]; eauto.
Qed.

(** The loop of the rows: it adds to the report, and stops with
    [ValueError] at a thread count beyond the limit. *)
Lemma add_rows_cases rows : forall report,
  (Forall (fun row => Z.abs (fst (fst (fst row))) < str_limit) rows
   /\ exists text, add_rows rows report = Ok (report ++ text))
  \/ (Exists (fun row => str_limit <= Z.abs (fst (fst (fst row)))) rows
      /\ add_rows rows report = Raise ValueError).
Proof.
  induction rows as [|[[[t time] speedup] eff] rows IH]; intros report; cbn [add_rows].
  - left. split; [constructor|]. exists EmptyString. now rewrite ReFacts.app_nil_r.
  - destruct (table_row_cases t time speedup eff) as [[H (line & E)]|[H E]];
      rewrite E; cbn [bind].
    + destruct (IH (report ++ line)) as [[F (text & R)]|[X R]].
      * left. split; [now constructor|].
        exists (line ++ text). now rewrite R, ReFacts.app_assoc.
      * right. split; [now apply Exists_cons_tl | exact R].
    + right. split; [now apply Exists_cons_hd | reflexivity].
Qed.

Lemma in_zip4_threads {B C D : Type} (a : list Z) :
  forall (b : list B) (c : list C) (d : list D) row,
  In row (zip4 a b c d) -> In (fst (fst (fst row))) a.
Proof.
  induction a as [|x a IH]; intros [|y b] [|z c] [|w d] row H; cbn [zip4] in H;
    try contradiction.
  destruct H as [<-|H]; [now left | right; now apply (IH b c d)].
Qed.


(** The table raises nothing but [ValueError], and only for a thread count
    beyond the limit. *)
Lemma table_rows_raises threads times speedups efficiencies e :
  table_rows threads times speedups efficiencies = Raise e ->
  e = ValueError /\ Exists (fun t => str_limit <= Z.abs t) threads.
Proof.
  unfold table_rows. intros H.
  destruct (add_rows_cases (zip4 threads times speedups efficiencies) EmptyString)
    as [[_ (text & R)]|[X R]]; [congruence|].
  split; [congruence|].
  apply Exists_exists in X. destruct X as (row & Hin & Hl).
  apply Exists_exists. exists (fst (fst (fst row))).
  split; [now apply in_zip4_threads in Hin | exact Hl].
Qed.

Lemma best_line_ok t s :
  Z.abs t < str_limit ->
  best_line t s
  = Ok ("1. **Best Performance**: " ++ decimal_numeral t
          ++ " thread(s) achieved " ++ format_f 0 2 s ++ "x speedup" ++ nl).
Proof. intros H. unfold best_line. now rewrite (str_int_ok t H). Qed.

Lemma best_line_raises t s : str_limit <= Z.abs t -> best_line t s = Raise ValueError.
Proof. intros H. unfold best_line. now rewrite (str_int_raises t H). Qed.

Lemma zip4_no_speedups {A B D : Type} (a : list A) (b : list B) (d : list D) :
  zip4 a b (@nil float) d = [].
Proof. destruct a, b; reflexivity. Qed.

(** A thread count within the range of floats is within the limit. *)
Lemma float_range_within_limit : 2 ^ 1023 < str_limit.
Proof. vm_compute. reflexivity. Qed.






End FormatFacts.

(** * The claims of the specification *)

(** ** The report composer: C1, C2 *)

(** C1, as the code has it.  Given an empty sample sequence,
    [generate_report] composes no document, and it has no outcome of its own
    that says so: the call ends in the exception of the first operation that
    fails on the lists it was given, the [ValueError] of [max] when there are
    no speedups, the [IndexError] of [threads[max_speedup_idx]] when there
    are some.  The outcome that says "no data" is that of [main], which looks
    at the samples before it calls [generate_report]: with no sample it
    prints the message and exits with status 1. *)
Theorem generate_report_no_samples :
  (forall speedups efficiencies : list float,
      generate_report [] [] speedups efficiencies
      = Raise match speedups with
              | [] => ValueError
              | _ :: _ => IndexError
              end)
  /\ (forall (content : string) (times : list float),
         parse_results content = Ok ([], times) ->
         main content
         = NoResults "Error: No results found in benchmark_results.txt" 1).
Proof.
  split.
  - intros speedups efficiencies.
    destruct speedups as [|x l]; [reflexivity|].
    destruct (MaxFacts.index_max (x :: l)) as (m & idx & s & Hm & Hi & _);
      [discriminate|].
    unfold generate_report. cbn [table_rows zip4 add_rows bind].
    rewrite Hm. cbn [bind]. rewrite Hi. cbn [bind].
    unfold getitem at 1. now destruct idx.
  - intros content times P. unfold main. now rewrite P.
Qed.

(** A log without a record: the run reports that no results were found. *)
Lemma generate_report_no_samples_witness :
  main "no record" = NoResults "Error: No results found in benchmark_results.txt" 1.
Proof.
  apply (proj2 generate_report_no_samples "no record" []).
  vm_compute. reflexivity.
Defined.

(** C1, as the specification has it, fails: what [generate_report] does
    with no samples says nothing about them.  With no metrics either it
    raises the [ValueError] that it also raises for a sample whose metrics
    are empty, and with metrics it raises another exception, the
    [IndexError] of an index out of range. *)
Lemma no_samples_outcome_is_incidental :
  generate_report [] [] [] [] = Raise ValueError
  /\ generate_report [1] [fzero] [] [] = generate_report [] [] [] []
  /\ generate_report [] [] [f1_0] [f100] = Raise IndexError
  /\ generate_report [] [] [f1_0] [f100] <> generate_report [] [] [] [].
Proof.
  split; [vm_compute; reflexivity|].
  split; [vm_compute; reflexivity|].
  split; [vm_compute; reflexivity | vm_compute; discriminate].
Qed.

(** C2. A zero baseline time: the metrics are empty, and the run ends in
    the uncaught [ValueError] that [max] raises in [generate_report]; no
    report is written, and the failure is not reported the way a log
    without records is. *)
Theorem zero_baseline_is_uncaught :
  parse_results "Threads: 1 Execution Time: 0ms" = Ok ([1], [fzero])
  /\ calculate_speedup [1] [fzero] = Ok []
  /\ calculate_efficiency [1] [] = Ok []
  /\ generate_report [1] [fzero] [] [] = Raise ValueError
  /\ main "Threads: 1 Execution Time: 0ms" = Uncaught ValueError
  /\ main "no record" = NoResults "Error: No results found in benchmark_results.txt" 1.
Proof. repeat split; vm_compute; reflexivity. Qed.

(** ** The extractor: C3, C4, C5 *)




(** C4. A time field whose number has two points matches the pattern, and
    [float] raises [ValueError] on it: [parse_results] ends in that exception
    instead of skipping the record. *)
Theorem malformed_number_raises :
  Re.findall pattern "Threads: 1 Execution Time: 1.2.3ms" = [["1"; "1.2.3"; "ms"]]
  /\ py_float "1.2.3" = Raise ValueError
  /\ parse_results "Threads: 1 Execution Time: 1.2.3ms" = Raise ValueError.
Proof. repeat split; vm_compute; reflexivity. Qed.

(** C5, as the code has it.  Every sample that the extractor produces has a
    thread count that is an integer not below zero, and a time that is a
    float not below zero: zero, a positive number, or plus infinity when the
    numeral is beyond the range of floats; it is never a NaN.  The lists of
    thread counts and of times have the same length. *)
Theorem samples_not_negative (content : string) (threads : list Z) (times : list float) :
  parse_results content = Ok (threads, times) ->
  List.length threads = List.length times
  /\ Forall (fun thread_count => 0 <= thread_count) threads
  /\ Forall nonneg times.
Proof.
  unfold parse_results. intros H.
  now apply ParseFacts.for_matches_nonneg in H.
Qed.

(** The scenario of the specification: two records. *)
Lemma samples_not_negative_witness :
  List.length [1; 2] = List.length [float_of_decimal 500 0; float_of_decimal 300 0]
  /\ Forall (fun thread_count => 0 <= thread_count) [1; 2]
  /\ Forall nonneg [float_of_decimal 500 0; float_of_decimal 300 0].
Proof.
  apply (samples_not_negative
           "Threads: 1 Execution Time: 500ms Threads: 2 Execution Time: 300ms").
  vm_compute. reflexivity.
Defined.

(** C5, as the specification has it, fails: the pattern takes a thread count
    of zero, which is not positive. *)
Lemma thread_count_zero :
  parse_results "Threads: 0 Execution Time: 5ms" = Ok ([0], [float_of_decimal 5 0])
  /\ ~ 0 < 0.
Proof. split; [vm_compute; reflexivity | lia]. Qed.

(** ** The narrative of the report: C6 *)




Example scenario_report :
  main ("Threads: 1" ++ nl ++ "Execution Time: 500ms" ++ nl
        ++ "Threads: 2" ++ nl ++ "Execution Time: 300ms" ++ nl)
  = Written
      (report_head
       ++ "|       1 |             500.00 |   1.00x |         100.0% |" ++ nl
       ++ "|       2 |             300.00 |   1.67x |          83.3% |" ++ nl
       ++ report_analysis
       ++ "1. **Best Performance**: 2 thread(s) achieved 1.67x speedup" ++ nl
       ++ "2. **Single Thread Baseline**: 500.00 ms" ++ nl
       ++ moderate_scaling
       ++ report_notes).
Proof. vm_compute. reflexivity. Qed.

(** ** Units: C7 *)



(** ** The metric calculator: C8, C9, C10 *)

(** C8. A time of zero after the first: the guard looks at the first time
    only, and the division by the later one raises [ZeroDivisionError]
    instead of giving the list of quotients. *)
Theorem later_zero_time_raises :
  parse_results "Threads: 1 Execution Time: 5ms Threads: 2 Execution Time: 0ms"
  = Ok ([1; 2], [float_of_decimal 5 0; fzero])
  /\ feq (float_of_decimal 5 0) fzero = false
  /\ calculate_speedup [1; 2] [float_of_decimal 5 0; fzero] = Raise ZeroDivisionError.
Proof. repeat split; vm_compute; reflexivity. Qed.

(** C9, as the code has it.  For a baseline time that is finite and not
    zero, the first quotient is exactly 1.0: [calculate_speedup] gives 1.0
    followed by the quotients of the later times, or the exception of a later
    division.  When none of the later times is zero, the series is produced:
    it is 1.0 followed by [base / t] for each later time [t]. *)
Theorem baseline_speedup_is_one (threads : list Z) (base : float) (rest : list float) :
  is_finite base = true -> feq base fzero = false ->
  calculate_speedup threads (base :: rest)
  = (later <- mapM (fun t => truediv base t) rest ;; Ok (f1_0 :: later))
  /\ (Forall (fun t => feq t fzero = false) rest ->
      calculate_speedup threads (base :: rest) = Ok (f1_0 :: map (fdiv base) rest)).
Proof.
  intros Fin Nz.
  assert (E : calculate_speedup threads (base :: rest)
              = (later <- mapM (fun t => truediv base t) rest ;; Ok (f1_0 :: later))).
  { unfold calculate_speedup. rewrite Nz. cbn [mapM]. unfold truediv at 1.
    rewrite Nz. cbn [bind].
    destruct base as [[|]|s| |s m e]; try discriminate.
    now rewrite FloatFacts.fdiv_self. }
  split; [exact E|].
  intros Hrest. rewrite E, SpeedupFacts.mapM_truediv by assumption. reflexivity.
Qed.

(** The scenario of the specification: 500 ms, then 300 ms. *)
Lemma baseline_speedup_is_one_witness :
  (is_finite (float_of_decimal 500 0) = true
   /\ feq (float_of_decimal 500 0) fzero = false)
  /\ calculate_speedup [1; 2] [float_of_decimal 500 0; float_of_decimal 300 0]
     = Ok [f1_0; fdiv (float_of_decimal 500 0) (float_of_decimal 300 0)].
Proof.
  split; [split; reflexivity|].
  apply (baseline_speedup_is_one [1; 2] (float_of_decimal 500 0) [float_of_decimal 300 0]).
  - reflexivity.
  - reflexivity.
  - repeat constructor.
Defined.

(** C9, as the specification has it, fails.  A baseline time beyond the
    range of floats: the extractor reads a numeral of 401 digits as plus
    infinity, which is not zero, and infinity divided by itself is a NaN, not
    1.0.  And a later time of zero, as in C8: the baseline is not zero, and
    there is no series at all. *)
Lemma speedup_series_without_one :
  parse_results ("Threads: 1 Execution Time: 1" ++ zeros 400 ++ "ms")
  = Ok ([1], [S754_infinity false])
  /\ feq (S754_infinity false) fzero = false
  /\ calculate_speedup [1] [S754_infinity false] = Ok [S754_nan]
  /\ feq S754_nan f1_0 = false
  /\ feq (float_of_decimal 500 0) fzero = false
  /\ calculate_speedup [1; 2] [float_of_decimal 500 0; fzero] = Raise ZeroDivisionError.
Proof. repeat split; vm_compute; reflexivity. Qed.

(** C10, as the code has it.  For lists of speedups and thread counts whose
    paired thread counts are not zero and are within the range of floats
    ([float] of them does not raise [OverflowError]), [calculate_efficiency]
    returns a list as long as the shorter of the two, each element being the
    speedup divided by the thread count, times 100.  For an empty list of
    speedups it returns the empty list, whatever the thread counts. *)
Theorem efficiency_series (threads : list Z) (speedups : list float) :
  (forall s t, In (s, t) (zip speedups threads) ->
               t <> 0 /\ exists y, float_of_int t = Ok y) ->
  calculate_efficiency threads [] = Ok []
  /\ exists efficiencies,
       calculate_efficiency threads speedups = Ok efficiencies
       /\ List.length efficiencies
          = Nat.min (List.length speedups) (List.length threads)
       /\ forall i s t,
            nth_error speedups i = Some s -> nth_error threads i = Some t ->
            exists y, float_of_int t = Ok y
                      /\ nth_error efficiencies i = Some (fmul (fdiv s y) f100).
Proof.
  intros H. split; [reflexivity|]. now apply EfficiencyFacts.efficiencies.
Qed.

(** Speedups 1.0 and 1.5 on 1 and 2 threads, a third thread count being
    left over. *)
Lemma efficiency_series_witness :
  calculate_efficiency [1; 2; 4] [] = Ok []
  /\ exists efficiencies,
       calculate_efficiency [1; 2; 4] [f1_0; float_of_decimal 15 1] = Ok efficiencies
       /\ List.length efficiencies = Nat.min 2 3
       /\ forall i s t,
            nth_error [f1_0; float_of_decimal 15 1] i = Some s ->
            nth_error [1; 2; 4] i = Some t ->
            exists y, float_of_int t = Ok y
                      /\ nth_error efficiencies i = Some (fmul (fdiv s y) f100).
Proof.
  apply (efficiency_series [1; 2; 4] [f1_0; float_of_decimal 15 1]).
  intros s t [H|[H|[]]]; injection H as <- <-.
  - split; [discriminate | now exists f1_0].
  - split; [discriminate | eexists; vm_compute; reflexivity].
Defined.

(** C10, as the specification has it, fails for a thread count beyond the
    range of floats: it is not zero, and its conversion for the division
    raises [OverflowError]. *)
Lemma huge_thread_count_overflows :
  parse_results ("Threads: 1" ++ zeros 400 ++ " Execution Time: 5ms")
  = Ok ([10 ^ 400], [float_of_decimal 5 0])
  /\ 10 ^ 400 <> 0
  /\ calculate_efficiency [10 ^ 400] [f1_0] = Raise OverflowError.
Proof.
  split; [vm_compute; reflexivity|].
  split; [vm_compute; discriminate | vm_compute; reflexivity].
Qed.

(** * Further properties of the code *)

(** ** The order in which the matcher tries *)

Module OrderFacts.
Import Re ReFacts PatternFacts.

(** The greedy repetition gives the longest run for which the rest
    matches. *)
Lemma plus_greedy_longest c s k res :
  plus_greedy c s k = Some res ->
  exists pre s',
    s = pre ++ s' /\ pre <> EmptyString /\ all_in c pre = true
    /\ k s' = Some res
    /\ (head_in c s' = true -> plus_greedy c s' k = None).
Proof.
  revert res. induction s as [|a s IH]; intros res H; simpl in H; [discriminate|].
  destruct (c a) eqn:Ca; [|discriminate].
  destruct (plus_greedy c s k) as [r|] eqn:G.
  - injection H as ->.
    destruct (IH res eq_refl) as (pre & s' & -> & _ & All & K & L).
    exists (String a pre), s'. simpl. rewrite Ca, All.
    split; [reflexivity|]. split; [discriminate|]. auto.
  - exists (String a EmptyString), s. simpl. rewrite Ca.
    split; [reflexivity|]. split; [discriminate|]. auto.
Qed.

(** The lazy repetition gives the shortest run for which the rest matches. *)
Lemma star_lazy_shortest c s k res :
  star_lazy c s k = Some res ->
  exists pre s',
    s = pre ++ s' /\ all_in c pre = true /\ k s' = Some res
    /\ forall p1 p2, pre = p1 ++ p2 -> p2 <> EmptyString -> k (p2 ++ s') = None.
Proof.
  revert res. induction s as [|a s IH]; intros res H; simpl in H.
  - destruct (k EmptyString) eqn:K; [|discriminate].
    exists EmptyString, EmptyString. repeat split; try congruence.
    intros p1 p2 E N. destruct p1; destruct p2; simpl in E; congruence.
  - destruct (k (String a s)) eqn:K.
    + exists EmptyString, (String a s). repeat split; try congruence.
      intros p1 p2 E N. destruct p1; destruct p2; simpl in E; congruence.
    + destruct (c a) eqn:Ca; [|discriminate].
      destruct (IH res H) as (pre & s' & -> & All & K' & F).
      exists (String a pre), s'. simpl. rewrite Ca, All.
      repeat split; try assumption.
      intros p1 p2 E N. destruct p1 as [|b p1]; simpl in E.
      * subst p2. exact K.
      * injection E as _ E. now apply (F p1 p2).
Qed.

(** Whether a pattern matches does not depend on the groups captured before
    it, when what follows it always succeeds. *)
Lemma run_total r s gs gs' :
  run r s gs (fun s' g => Some (s', g)) = None ->
  run r s gs' (fun s' g => Some (s', g)) = None.
Proof.
  intros H. destruct (run r s gs' (fun s' g => Some (s', g))) as [res|] eqn:R;
    [|reflexivity].
  apply run_sound in R. destruct R as (s' & new & M & _).
  exfalso. now apply (run_complete _ _ _ _ M gs (fun s' g => Some (s', g))).
Qed.

Lemma free_of_time_intro gap tail :
  (forall p1 p2, gap = p1 ++ p2 -> p2 <> EmptyString ->
                 match_here time_field (p2 ++ tail) = None) ->
  free_of_time gap tail = true.
Proof.
  induction gap as [|a gap IH]; intros H; [reflexivity|].
  cbn [free_of_time]. rewrite (H EmptyString (String a gap) eq_refl) by discriminate.
  apply IH. intros p1 p2 E N. apply (H (String a p1) p2); [now rewrite E | exact N].
Qed.

Lemma free_of_time_elim gap tail :
  free_of_time gap tail = true ->
  forall p1 p2, gap = p1 ++ p2 -> p2 <> EmptyString ->
                match_here time_field (p2 ++ tail) = None.
Proof.
  induction gap as [|a gap IH]; intros F p1 p2 E N.
  - destruct p1; destruct p2; simpl in E; congruence.
  - cbn [free_of_time] in F.
    destruct (match_here time_field (String a gap ++ tail)) eqn:M; [discriminate|].
    destruct p1 as [|b p1]; simpl in E.
    + subst p2. exact M.
    + injection E as _ E. now apply (IH F p1 p2).
Qed.

(** A match of the pattern, read off the matcher: the digits are the whole
    run after [Threads: ], and the time field is the first one after them. *)
Lemma pattern_nearest s rest gs :
  match_here pattern s = Some (rest, gs) ->
  exists d mid num u,
    s = "Threads: " ++ d ++ mid ++ "Execution Time: " ++ num ++ u ++ rest
    /\ gs = [d; num; u]
    /\ d <> EmptyString /\ all_in is_digit d = true
    /\ head_in is_digit mid = false
    /\ free_of_time mid ("Execution Time: " ++ num ++ u ++ rest) = true
    /\ num <> EmptyString /\ all_in is_digit_or_dot num = true /\ is_unit u.
Proof.
  unfold match_here, pattern. cbn [run]. intros H.
  destruct (strip_prefix "Threads: " s) as [s1|] eqn:P; [|discriminate].
  apply strip_prefix_inv in P. subst s.
  apply plus_greedy_longest in H.
  destruct H as (d & s2 & -> & Nd & Ad & K & L).
  rewrite consumed_app in K. cbn [app] in K.
  apply star_lazy_shortest in K.
  destruct K as (mid & s3 & -> & _ & T & F).
  pose proof T as T'. apply run_sound in T'.
  destruct T' as (rest' & new & M & E). injection E as -> <-.
  pose proof M as M'. apply time_field_inv in M'.
  destruct M' as (num & u & -> & -> & Nn & An & U).
  exists d, mid, num, u.
  split; [reflexivity|]. split; [reflexivity|].
  split; [exact Nd|]. split; [exact Ad|].
  split; [|split; [|auto]].
  - (* the gap does not start with a digit *)
    destruct (head_in is_digit mid) eqn:Hd; [|reflexivity]. exfalso.
    destruct mid as [|a mid]; [discriminate|]. cbn [head_in] in Hd.
    pose proof (L Hd) as L'. cbn [append plus_greedy] in L'. rewrite Hd in L'.
    match type of L' with
    | match ?g with _ => _ end = None => destruct g; [discriminate|]
    end.
    revert L'. apply star_lazy_complete; [clear; induction mid; simpl; auto|].
    now apply (run_complete _ _ _ _ M).
  - (* no time field before the one taken *)
    apply free_of_time_intro. intros p1 p2 E N.
    specialize (F p1 p2 E N). cbn beta in F.
    now apply run_total with (gs := [d]).
Qed.

End OrderFacts.

(** ** What the extractor gives on a log *)

Module ExtractFacts.
Import Re ReFacts PatternFacts OrderFacts.

Lemma match_here_not_T a s :
  Ascii.eqb "T" a = false -> match_here pattern (String a s) = None.
Proof. intros H. unfold match_here, pattern. cbn [run strip_prefix]. now rewrite H. Qed.

Lemma time_field_not_E a s :
  Ascii.eqb "E" a = false -> match_here time_field (String a s) = None.
Proof. intros H. unfold match_here, time_field. cbn [run strip_prefix]. now rewrite H. Qed.

(** A text without [E] has no place for a time field to begin. *)
Lemma lacks_E_free gap tail : lacks "E" gap = true -> free_of_time gap tail = true.
Proof.
  induction gap as [|a gap IH]; intros H; [reflexivity|].
  cbn [lacks] in H. apply andb_prop in H. destruct H as [Ha Hg].
  apply negb_true_iff in Ha.
  cbn [free_of_time]. change (String a gap ++ tail) with (String a (gap ++ tail)).
  rewrite (time_field_not_E _ _ Ha). now apply IH.
Qed.

(** [findall] passes over a text without [T]. *)
Lemma findall_skip junk s :
  lacks "T" junk = true -> findall pattern (junk ++ s) = findall pattern s.
Proof.
  induction junk as [|a junk IH]; intros H; [reflexivity|].
  cbn [lacks] in H. apply andb_prop in H. destruct H as [Ha Hj].
  apply negb_true_iff in Ha.
  rewrite findall_eq. change (String a junk ++ s) with (String a (junk ++ s)).
  rewrite (match_here_not_T _ _ Ha). now apply IH.
Qed.

Lemma render_app r s :
  render r ++ s
  = "Threads: " ++ thread_digits r ++ gap r
      ++ "Execution Time: " ++ number r ++ unit_suffix r ++ (trailer r ++ s).
Proof. unfold render. now rewrite !app_assoc. Qed.

Lemma findall_record r s :
  well_formed_record r ->
  findall pattern (render r ++ s) = groups_of r :: findall pattern s.
Proof.
  intros (Nd & Ad & Hg & Eg & Nn & An & U & Tt).
  rewrite findall_eq, render_app.
  rewrite pattern_match by (try assumption; now apply lacks_E_free).
  unfold groups_of. f_equal. now apply findall_skip.
Qed.

Lemma findall_records rs :
  Forall well_formed_record rs ->
  findall pattern (render_all rs) = map groups_of rs.
Proof.
  induction 1 as [|r rs Hr _ IH]; [reflexivity|].
  cbn [render_all map]. rewrite findall_record by assumption. now rewrite IH.
Qed.

(** The loop gives the samples of the matches, in their order. *)
Lemma for_matches_mapM ms :
  for_matches ms [] []
  = (samples <- mapM sample_of_match ms ;; Ok (map fst samples, map snd samples)).
Proof.
  induction ms as [|m ms IH]; [reflexivity|].
  rewrite ParseFacts.for_matches_cons, IH. cbn [mapM].
  destruct (sample_of_match m) as [[t x]|]; [|reflexivity]. cbn [bind fst snd].
  destruct (mapM sample_of_match ms) as [samples|]; reflexivity.
Qed.

Lemma for_matches_length ms : forall ts xs ts' xs',
  for_matches ms ts xs = Ok (ts', xs') ->
  List.length ts' = (List.length ts + List.length ms)%nat.
Proof.
  induction ms as [|m ms IH]; intros ts xs ts' xs' H; cbn [for_matches] in H.
  - injection H as <- <-. simpl. lia.
  - destruct (sample_of_match m) as [[t x]|]; [|discriminate].
    cbn [bind fst snd] in H. apply IH in H. rewrite H, List.length_app. simpl. lia.
Qed.

(** Every match that [findall] returns is a match of the pattern at some
    place of the text. *)
Lemma findall_matches_at s : forall gs,
  In gs (findall pattern s) ->
  exists pre s1 rest, s = pre ++ s1 /\ match_here pattern s1 = Some (rest, gs).
Proof.
  unfold findall. generalize (S (String.length s)) as n. intros n. revert s.
  induction n as [|n IH]; intros s gs H; simpl in H; [contradiction|].
  destruct (match_here pattern s) as [[s' gs']|] eqn:M.
  - destruct H as [<-|H]; [now exists EmptyString, s, s'|].
    destruct (IH _ _ H) as (pre & s1 & rest & -> & M1).
    apply match_here_sound, matches_prefix in M. destruct M as (p0 & ->).
    exists (p0 ++ pre), s1, rest. now rewrite app_assoc.
  - destruct s as [|a s]; [contradiction|].
    destruct (IH _ _ H) as (pre & s1 & rest & -> & M1).
    now exists (String a pre), s1, rest.
Qed.

End ExtractFacts.

(** A match of the pattern at the start of a text, in full: the text is
    [Threads: ], a run of digits that the next character does not continue,
    a gap in which no time field begins, and a time field.  So a thread count
    is never cut short, and it is paired with the first time field after it,
    never with a later one. *)
Theorem match_pairs_nearest_time_field (s rest d num u : string) :
  Re.match_here pattern s = Some (rest, [d; num; u])
  <-> exists mid,
        s = "Threads: " ++ d ++ mid ++ "Execution Time: " ++ num ++ u ++ rest
        /\ d <> EmptyString /\ Re.all_in is_digit d = true
        /\ head_in is_digit mid = false
        /\ free_of_time mid ("Execution Time: " ++ num ++ u ++ rest) = true
        /\ num <> EmptyString /\ Re.all_in is_digit_or_dot num = true
        /\ is_unit u.
Proof.
  split.
  - intros H. apply OrderFacts.pattern_nearest in H.
    destruct H as (d' & mid & num' & u' & -> & E & H).
    injection E as <- <- <-. now exists mid.
  - intros (mid & -> & Nd & Ad & Hd & F & Nn & An & U).
    now apply PatternFacts.pattern_match.
Qed.

(** A log of well-formed records after a header: [findall] gives one match
    for each record, in the order of the log, records with the same thread
    count included, and [parse_results] gives their samples in that order,
    or the exception of the first conversion that fails. *)
Theorem records_extracted_in_order (header : string) (rs : list log_record) :
  lacks "T" header = true ->
  Forall well_formed_record rs ->
  Re.findall pattern (header ++ render_all rs) = map groups_of rs
  /\ parse_results (header ++ render_all rs)
     = (samples <- mapM sample_of_match (map groups_of rs) ;;
        Ok (map fst samples, map snd samples)).
Proof.
  intros Hh Hrs.
  assert (E : Re.findall pattern (header ++ render_all rs) = map groups_of rs).
  { rewrite ExtractFacts.findall_skip by assumption.
    now apply ExtractFacts.findall_records. }
  split; [exact E|].
  unfold parse_results. rewrite E. apply ExtractFacts.for_matches_mapM.
Qed.

(** Two runs on four threads and one on eight, with lines between the
    fields. *)
Lemma records_extracted_in_order_witness :
  let r4a := {| thread_digits := "4"; gap := nl ++ "steps: 1000" ++ nl;
                number := "1.5"; unit_suffix := "s"; trailer := nl |} in
  let r4b := {| thread_digits := "4"; gap := nl;
                number := "1480"; unit_suffix := "ms"; trailer := nl |} in
  let r8 := {| thread_digits := "8"; gap := " ";
               number := "900000"; unit_suffix := micro_s; trailer := EmptyString |} in
  parse_results (("benchmark" ++ nl) ++ render_all [r4a; r4b; r8])
  = Ok ([4; 4; 8],
        [float_of_decimal 1500 0; float_of_decimal 1480 0; float_of_decimal 900 0]).
Proof.
  intros r4a r4b r8.
  destruct (records_extracted_in_order ("benchmark" ++ nl) [r4a; r4b; r8]) as [_ P].
  - reflexivity.
  - repeat (apply Forall_cons; [unfold well_formed_record, is_unit; cbn;
        repeat split; try discriminate; auto|]).
    apply Forall_nil.
  - rewrite P. vm_compute. reflexivity.
Defined.

(** ** When the conversions of [parse_results] fail *)

Module ConversionFacts.
Import Re ReFacts PatternFacts.

Lemma all_digits_all_in s : all_digits s = all_in is_digit s.
Proof. induction s as [|a s IH]; simpl; [reflexivity | now rewrite IH]. Qed.

(** [int] reads a text of digits exactly when it is within the limit. *)
Lemma py_int_digits d :
  d <> EmptyString -> all_in is_digit d = true ->
  (is_short d -> py_int d = Ok (decimal_value 0 d))
  /\ (~ is_short d -> py_int d = Raise ValueError).
Proof.
  intros N A. unfold py_int, is_short. destruct d as [|a d]; [congruence|].
  rewrite all_digits_all_in, A.
  destruct (Nat.ltb_spec max_str_digits (String.length (String a d))) as [L|L];
    split; intros H; try reflexivity; lia.
Qed.

Lemma digit_not_point a : is_digit a = true -> Ascii.eqb a "." = false.
Proof.
  intros H. destruct (Ascii.eqb a ".") eqn:E; [|reflexivity].
  apply Ascii.eqb_eq in E. subst a. discriminate.
Qed.

Lemma all_digits_app a b : all_digits (a ++ b) = all_digits a && all_digits b.
Proof. rewrite !all_digits_all_in. apply all_in_app. Qed.

Lemma has_digit_app a b : has_digit (a ++ b) = has_digit a || has_digit b.
Proof.
  induction a as [|x a IH]; simpl; [reflexivity|]. now rewrite IH, orb_assoc.
Qed.

Lemma all_digits_no_point s : all_digits s = true -> count_points s = O.
Proof.
  induction s as [|a s IH]; simpl; [reflexivity|]. intros H.
  apply andb_prop in H. destruct H as [Ha Hs].
  rewrite (digit_not_point a Ha). now apply IH.
Qed.

Lemma no_point_all_digits s :
  all_in is_digit_or_dot s = true -> count_points s = O -> all_digits s = true.
Proof.
  induction s as [|a s IH]; simpl; [reflexivity|]. intros H C.
  apply andb_prop in H. destruct H as [Ha Hs]. unfold is_digit_or_dot in Ha.
  destruct (Ascii.eqb a "."); [discriminate|].
  rewrite orb_false_r in Ha. rewrite Ha. now apply IH.
Qed.

Lemma all_digits_has_digit s :
  all_digits s = true -> (has_digit s = true <-> s <> EmptyString).
Proof.
  destruct s as [|a s]; simpl; intros H.
  - split; [discriminate | congruence].
  - apply andb_prop in H. destruct H as [-> _]. split; [discriminate | reflexivity].
Qed.

(** What [split_point] gives on a text of digits and points. *)
Lemma split_point_spec s :
  all_in is_digit_or_dot s = true ->
  let '(i, f) := split_point s in
  all_digits i = true
  /\ match f with
     | None => s = i /\ count_points s = O
     | Some f' =>
         s = i ++ "." ++ f' /\ count_points s = S (count_points f')
         /\ all_in is_digit_or_dot f' = true
     end.
Proof.
  induction s as [|a s IH]; intros H; cbn [split_point]; [auto|].
  cbn [all_in] in H. apply andb_prop in H. destruct H as [Ha Hs].
  cbn [count_points].
  destruct (Ascii.eqb a ".") eqn:E.
  - apply Ascii.eqb_eq in E. subst a. auto.
  - specialize (IH Hs). destruct (split_point s) as [i f].
    destruct IH as [Di Hf]. unfold is_digit_or_dot in Ha. rewrite E, orb_false_r in Ha.
    split; [cbn [all_digits]; now rewrite Ha, Di|].
    destruct f as [f'|].
    + destruct Hf as (-> & C & A). auto.
    + destruct Hf as (-> & C). auto.
Qed.

Lemma py_float_cases s i f :
  split_point s = (i, f) ->
  let ds := i ++ match f with Some f' => f' | None => EmptyString end in
  (ds <> EmptyString -> all_digits ds = true -> exists v, py_float s = Ok v)
  /\ (ds = EmptyString \/ all_digits ds = false -> py_float s = Raise ValueError).
Proof.
  intros E ds. unfold py_float. rewrite E. fold ds.
  destruct ds as [|x r] eqn:Q.
  - split; [congruence | reflexivity].
  - destruct (all_digits (String x r)); split; eauto.
    + intros [H|H]; discriminate.
    + discriminate.
Qed.

(** [float] reads a text of digits and points exactly when it is a numeral;
    otherwise it raises [ValueError]. *)
Lemma py_float_numeral s :
  all_in is_digit_or_dot s = true ->
  (is_numeral s -> exists v, py_float s = Ok v)
  /\ (~ is_numeral s -> py_float s = Raise ValueError).
Proof.
  intros A. pose proof (split_point_spec s A) as S. unfold is_numeral.
  destruct (split_point s) as [i f] eqn:E.
  destruct (py_float_cases s i f E) as [Y N]. cbv zeta in Y, N.
  destruct S as [Di Hf]. destruct f as [f'|].
  - destruct Hf as (Es & C & Af).
    assert (Hd : has_digit s = has_digit (i ++ f')).
    { rewrite Es, !has_digit_app. cbn [has_digit]. now change (is_digit ".") with false. }
    rewrite Hd, C. clear Hd.
    destruct (all_digits f') eqn:Df.
    + assert (Dif : all_digits (i ++ f') = true) by now rewrite all_digits_app, Di, Df.
      pose proof (all_digits_has_digit _ Dif) as Hn.
      rewrite (all_digits_no_point _ Df). split.
      * intros [H _]. apply Y; [now apply Hn | exact Dif].
      * intros H. apply N. left.
        destruct (i ++ f') as [|x r]; [reflexivity|]. exfalso. apply H.
        split; [apply Hn; discriminate | lia].
    + assert (Dif : all_digits (i ++ f') = false) by now rewrite all_digits_app, Di, Df.
      assert (Cf : count_points f' <> O).
      { intros Z. rewrite (no_point_all_digits _ Af Z) in Df. discriminate. }
      split; [intros [_ H]; lia | intros _; apply N; now right].
  - destruct Hf as (Es & C). rewrite app_nil_r in Y, N. subst i. rewrite C.
    pose proof (all_digits_has_digit _ Di) as Hn. split.
    + intros [H _]. apply Y; [now apply Hn | exact Di].
    + intros H. apply N. left.
      destruct s as [|x r]; [reflexivity|]. exfalso. apply H.
      split; [apply Hn; discriminate | lia].
Qed.

Lemma to_ms_unit v u : is_unit u -> exists x, to_ms v u = Ok x.
Proof. intros [->|[->| ->]]; eexists; reflexivity. Qed.

Lemma is_numeral_dec s : {is_numeral s} + {~ is_numeral s}.
Proof.
  unfold is_numeral. destruct (has_digit s); [|right; intros [H _]; discriminate].
  destruct (le_dec (count_points s) 1); [left; auto | right; intros [_ H]; contradiction].
Qed.

Lemma is_short_dec s : {is_short s} + {~ is_short s}.
Proof. apply le_dec. Qed.

Lemma is_readable_dec (m : list string) : {is_readable m} + {~ is_readable m}.
Proof.
  unfold is_readable.
  destruct (is_short_dec (group m 0)); [|right; tauto].
  destruct (is_numeral_dec (group m 1)); [left; tauto | right; tauto].
Qed.

(** The sample of a match of the pattern: [int] fails on a thread count
    beyond the limit, [float] on a number that is no numeral, and nothing
    else does. *)
Lemma sample_of_match_readable d num u :
  d <> EmptyString -> all_in is_digit d = true ->
  all_in is_digit_or_dot num = true -> is_unit u ->
  (is_readable [d; num; u] -> exists sample, sample_of_match [d; num; u] = Ok sample)
  /\ (~ is_readable [d; num; u] -> sample_of_match [d; num; u] = Raise ValueError).
Proof.
  intros Nd Ad An U. unfold is_readable, sample_of_match, group. cbn [nth].
  destruct (py_int_digits d Nd Ad) as [Yi Ni].
  destruct (py_float_numeral num An) as [Y N].
  destruct (is_short_dec d) as [Hd|Hd].
  - rewrite (Yi Hd). cbn [bind]. split.
    + intros [_ H]. destruct (Y H) as (v & ->). cbn [bind].
      destruct (to_ms_unit v u U) as (x & ->). cbn [bind]. eauto.
    + intros H. rewrite N; [reflexivity | tauto].
  - rewrite (Ni Hd). cbn [bind]. split; [tauto | reflexivity].
Qed.

(** The loop over matches of the pattern. *)
Lemma for_matches_readable ms : forall ts xs,
  (forall m, In m ms -> exists s1 rest, match_here pattern s1 = Some (rest, m)) ->
  (Forall is_readable ms -> exists r, for_matches ms ts xs = Ok r)
  /\ (~ Forall is_readable ms -> for_matches ms ts xs = Raise ValueError).
Proof.
  induction ms as [|m ms IH]; intros ts xs Hm.
  - split; [intros _; now exists (ts, xs)|]. intros N. exfalso. apply N. constructor.
  - destruct (Hm m (or_introl eq_refl)) as (s1 & rest & M).
    apply pattern_inv in M.
    destruct M as (d & mid & num & u & _ & -> & Nd & Ad & Nn & An & U).
    destruct (sample_of_match_readable d num u Nd Ad An U) as [Y N].
    cbn [for_matches].
    destruct (is_readable_dec [d; num; u]) as [Hn|Hn].
    + destruct (Y Hn) as (sample & ->). cbn [bind].
      destruct (IH (ts ++ [fst sample])%list (xs ++ [snd sample])%list) as [Y' N'].
      { intros m' Hin. apply Hm. now right. }
      split.
      * intros F. apply Y'. now inversion F.
      * intros F. apply N'. intros F'. apply F. now constructor.
    + rewrite (N Hn). split; [|reflexivity].
      intros F. inversion F; subst. contradiction.
Qed.

End ConversionFacts.

(** [parse_results] returns when every match is readable: its thread count
    has no more digits than the limit of [int], and its number is a numeral
    that [float] reads (it has a digit and at most one point).  It raises
    [ValueError] when some match is not readable.  The unit of a match is
    always one that the conversion knows, so that no other exception leaves
    [parse_results]. *)
Theorem parse_results_fails_on_bad_numeral_only (content : string) :
  (Forall is_readable (Re.findall pattern content) ->
   exists threads times, parse_results content = Ok (threads, times))
  /\ (~ Forall is_readable (Re.findall pattern content) ->
      parse_results content = Raise ValueError).
Proof.
  unfold parse_results.
  destruct (ConversionFacts.for_matches_readable (Re.findall pattern content) [] [])
    as [Y N].
  { intros m Hin. now apply PatternFacts.findall_matches in Hin. }
  split; [|exact N].
  intros F. destruct (Y F) as ([threads times] & E). eauto.
Qed.

(** A readable record, a number of points only, and a thread count of 4301
    digits. *)
Lemma parse_results_fails_on_bad_numeral_only_witness :
  (exists threads times,
      parse_results "Threads: 2 Execution Time: 12.5ms" = Ok (threads, times))
  /\ parse_results "Threads: 2 Execution Time: ..ms" = Raise ValueError
  /\ parse_results ("Threads: 1" ++ zeros 4300 ++ " Execution Time: 5ms")
     = Raise ValueError.
Proof.
  split; [|split].
  - apply (proj1 (parse_results_fails_on_bad_numeral_only
                    "Threads: 2 Execution Time: 12.5ms")).
    apply Forall_cons; [|apply Forall_nil].
    split; [unfold is_short, max_str_digits; cbn; lia | split; [reflexivity | cbn; lia]].
  - apply (proj2 (parse_results_fails_on_bad_numeral_only
                    "Threads: 2 Execution Time: ..ms")).
    intros F. inversion F as [|m l [_ [H _]] _]. discriminate.
  - apply (proj2 (parse_results_fails_on_bad_numeral_only
                    ("Threads: 1" ++ zeros 4300 ++ " Execution Time: 5ms"))).
    assert (E : exists m l,
               Re.findall pattern ("Threads: 1" ++ zeros 4300 ++ " Execution Time: 5ms")
               = m :: l
               /\ String.length (group m 0) = 4301%nat).
    { eexists. eexists. split; vm_compute; reflexivity. }
    destruct E as (m & l & E & L). rewrite E. intros F.
    apply Forall_inv in F. destruct F as [H _].
    unfold is_short, max_str_digits in H. rewrite L in H. lia.
Defined.

(** A log in which no execution-time field begins anywhere gives no sample,
    whatever thread-count tokens it has, and the run reports that no results
    were found, with exit status 1. *)
Theorem no_time_field_no_results (content : string) :
  free_of_time content EmptyString = true ->
  parse_results content = Ok ([], [])
  /\ main content = NoResults "Error: No results found in benchmark_results.txt" 1.
Proof.
  intros F.
  assert (E : Re.findall pattern content = []).
  { destruct (Re.findall pattern content) as [|m l] eqn:Q; [reflexivity|]. exfalso.
    destruct (ExtractFacts.findall_matches_at content m) as (pre & s1 & rest & -> & M).
    { rewrite Q. now left. }
    apply PatternFacts.pattern_inv in M.
    destruct M as (d & mid & num & u & -> & _ & _ & _ & Nn & An & U).
    pose proof (OrderFacts.free_of_time_elim _ _ F
                  (pre ++ "Threads: " ++ d ++ mid)
                  ("Execution Time: " ++ num ++ u ++ rest)) as Z.
    rewrite ReFacts.app_nil_r in Z.
    unfold Re.match_here in Z.
    rewrite (PatternFacts.time_field_run num u rest [] _ (rest, [num; u])) in Z
      by (try assumption; reflexivity).
    assert (Some (rest, [num; u]) = None); [|discriminate].
    apply Z; [|discriminate]. now rewrite !ReFacts.app_assoc. }
  assert (P : parse_results content = Ok ([], []))
    by (unfold parse_results; now rewrite E).
  split; [exact P|]. unfold main. now rewrite P.
Qed.

(** Thread counts and a time whose unit is missing. *)
Lemma no_time_field_no_results_witness :
  main ("Threads: 1" ++ nl ++ "Threads: 2" ++ nl ++ "Execution Time: 300" ++ nl)
  = NoResults "Error: No results found in benchmark_results.txt" 1.
Proof.
  apply (no_time_field_no_results
           ("Threads: 1" ++ nl ++ "Threads: 2" ++ nl ++ "Execution Time: 300" ++ nl)).
  vm_compute. reflexivity.
Defined.

(** The run reports "no results" exactly when the pattern matches nowhere in
    the log: a log with a match never ends that way, whatever its numbers
    are. *)
Theorem main_no_results_iff_no_match (content : string) :
  main content = NoResults "Error: No results found in benchmark_results.txt" 1
  <-> Re.findall pattern content = [].
Proof.
  unfold main, parse_results. split.
  - intros H.
    destruct (for_matches (Re.findall pattern content) [] []) as [[threads times]|e] eqn:P;
      [|discriminate].
    destruct threads as [|t threads].
    + apply ExtractFacts.for_matches_length in P. simpl in P.
      now destruct (Re.findall pattern content).
    + unfold run_result in H.
      destruct (speedups <- calculate_speedup (t :: threads) times ;;
                efficiencies <- calculate_efficiency (t :: threads) speedups ;;
                generate_report (t :: threads) times speedups efficiencies);
        discriminate.
  - intros ->. reflexivity.
Qed.

(** ** The metrics, the report and the run *)

Module PipelineFacts.
Import FloatFacts.

Lemma mapM_length {A B : Type} (f : A -> result B) (l : list A) : forall r,
  mapM f l = Ok r -> List.length r = List.length l.
Proof.
  induction l as [|x l IH]; intros r H; cbn [mapM] in H.
  - now injection H as <-.
  - destruct (f x) as [y|]; [|discriminate]. cbn [bind] in H.
    destruct (mapM f l) as [ys|]; [|discriminate]. cbn [bind] in H.
    injection H as <-. simpl. now rewrite (IH ys).
Qed.

(** The quotients of a list of times: all of them, or the exception at the
    first time that is zero. *)
Lemma mapM_truediv_cases base l :
  (Forall (fun t => feq t fzero = false) l
   /\ mapM (fun t => truediv base t) l = Ok (map (fdiv base) l))
  \/ (exists before t after,
        l = (before ++ t :: after)%list
        /\ Forall (fun t => feq t fzero = false) before
        /\ feq t fzero = true
        /\ mapM (fun t => truediv base t) l = Raise ZeroDivisionError).
Proof.
  induction l as [|x l IH]; [left; split; [constructor | reflexivity]|].
  cbn [mapM map]. unfold truediv at 1 3.
  destruct (feq x fzero) eqn:Z.
  - right. exists [], x, l. repeat split; auto.
  - cbn [bind]. destruct IH as [[F E]|(before & t & after & -> & F & Zt & E)].
    + left. rewrite E. split; [now constructor | reflexivity].
    + right. exists (x :: before), t, after. rewrite E.
      repeat split; auto.
Qed.

Lemma calculate_speedup_length threads times speedups :
  calculate_speedup threads times = Ok speedups ->
  speedups = [] \/ List.length speedups = List.length times.
Proof.
  unfold calculate_speedup. destruct times as [|base rest]; [intros H; left; congruence|].
  destruct (feq base fzero); [intros H; left; congruence|].
  intros H. right. now apply mapM_length in H.
Qed.

Lemma calculate_speedup_raises threads times e :
  calculate_speedup threads times = Raise e -> e = ZeroDivisionError.
Proof.
  unfold calculate_speedup. destruct times as [|base rest]; [discriminate|].
  destruct (feq base fzero); [discriminate|].
  destruct (mapM_truediv_cases base (base :: rest))
    as [[_ E]|(before & t & after & _ & _ & _ & E)]; rewrite E; congruence.
Qed.

Lemma float_of_int_raises t e : float_of_int t = Raise e -> e = OverflowError.
Proof.
  unfold float_of_int. destruct (binary_normalize prec emax t 0 false); congruence.
Qed.

(** The efficiency of a pair: the value, or the exception and its cause. *)
Lemma efficiency_of_pair_cases s t :
  (exists y, t <> 0 /\ float_of_int t = Ok y
             /\ (q <- truediv_int s t ;; mul_int q 100) = Ok (fmul (fdiv s y) f100))
  \/ (t = 0 /\ (q <- truediv_int s t ;; mul_int q 100) = Raise ZeroDivisionError)
  \/ (float_of_int t = Raise OverflowError
      /\ (q <- truediv_int s t ;; mul_int q 100) = Raise OverflowError).
Proof.
  destruct (Z.eq_dec t 0) as [->|Nz].
  - right. left. split; reflexivity.
  - destruct (float_of_int t) as [y|e] eqn:F.
    + left. exists y. split; [exact Nz|]. split; [reflexivity|].
      now apply EfficiencyFacts.efficiency_of_pair.
    + right. right. pose proof (float_of_int_raises t e F) as ->.
      split; [reflexivity|]. unfold truediv_int. now rewrite F.
Qed.

Lemma in_zip_r {A B : Type} (l1 : list A) : forall (l2 : list B) x y,
  In (x, y) (zip l1 l2) -> In y l2.
Proof.
  induction l1 as [|a l1 IH]; intros [|b l2] x y H; simpl in H; try contradiction.
  destruct H as [H|H]; [injection H as _ <-; now left | right; now apply IH with x].
Qed.

Lemma getitem_ok {A : Type} (l : list A) i :
  (i < List.length l)%nat -> exists x, getitem l i = Ok x.
Proof.
  intros H. unfold getitem. destruct (nth_error l i) as [x|] eqn:E; [eauto|].
  apply nth_error_None in E. lia.
Qed.

(** What [generate_report] does, step by step: the rows of the table, the
    maximum, the thread count at its position, the line that names it, the
    first time. *)
Lemma generate_report_cases threads times speedups efficiencies :
  (Exists (fun row => str_limit <= Z.abs (fst (fst (fst row))))
          (zip4 threads times speedups efficiencies)
   /\ generate_report threads times speedups efficiencies = Raise ValueError)
  \/ (Forall (fun row => Z.abs (fst (fst (fst row))) < str_limit)
             (zip4 threads times speedups efficiencies)
      /\ ((speedups = [] /\
           generate_report threads times speedups efficiencies = Raise ValueError)
          \/ (speedups <> [] /\
              exists idx, (idx < List.length speedups)%nat
                /\ (((List.length threads <= idx)%nat
                     /\ generate_report threads times speedups efficiencies
                        = Raise IndexError)
                    \/ (exists t, nth_error threads idx = Some t
                         /\ ((str_limit <= Z.abs t
                              /\ generate_report threads times speedups efficiencies
                                 = Raise ValueError)
                             \/ (Z.abs t < str_limit /\ times = []
                                 /\ generate_report threads times speedups efficiencies
                                    = Raise IndexError)
                             \/ (Z.abs t < str_limit /\ times <> []
                                 /\ exists report,
                                      generate_report threads times speedups efficiencies
                                      = Ok report))))))).
Proof.
  unfold generate_report, table_rows.
  destruct (FormatFacts.add_rows_cases (zip4 threads times speedups efficiencies)
              EmptyString) as [[F (rows & R)]|[X R]]; rewrite R; cbn [bind];
    [right; split; [exact F|] | left; split; [exact X | reflexivity]].
  destruct speedups as [|x l] eqn:Q; [left; split; reflexivity|]. right.
  split; [discriminate|]. rewrite <- Q.
  destruct (MaxFacts.index_max speedups) as (m & idx & s & Hm & Hi & Hs & _);
    [rewrite Q; discriminate|].
  exists idx.
  assert (Li : (idx < List.length speedups)%nat)
    by (apply nth_error_Some; rewrite Hs; discriminate).
  split; [exact Li|].
  rewrite Hm. cbn [bind]. rewrite Hi. cbn [bind].
  destruct (nth_error threads idx) as [t|] eqn:Et.
  - right. exists t. split; [reflexivity|].
    unfold getitem. rewrite Et, Hs. cbn [bind].
    destruct (FormatFacts.str_int_cases t) as [[Hl _]|[Hl _]].
    + right. rewrite (FormatFacts.best_line_ok t s Hl). cbn [bind].
      destruct times as [|t0 times]; cbn [nth_error bind].
      * left. auto.
      * right. split; [exact Hl|]. split; [discriminate|]. eauto.
    + left. rewrite (FormatFacts.best_line_raises t s Hl). auto.
  - left. split; [now apply nth_error_None|].
    unfold getitem. now rewrite Et.
Qed.

(** The outcomes, in terms of the lists. *)
Lemma generate_report_returns threads times speedups efficiencies :
  speedups <> [] -> (List.length speedups <= List.length threads)%nat ->
  times <> [] -> Forall (fun t => Z.abs t < str_limit) threads ->
  exists report, generate_report threads times speedups efficiencies = Ok report.
Proof.
  intros Ns L Nt F. rewrite Forall_forall in F.
  destruct (generate_report_cases threads times speedups efficiencies)
    as [[X _]|[_ [[Q _]|(_ & idx & Li & [[C _]|(t & Et & [[C _]|[(_ & C & _)|(_ & _ & R)]])])]]].
  - apply Exists_exists in X. destruct X as (row & Hin & Hl).
    apply FormatFacts.in_zip4_threads in Hin. specialize (F _ Hin). lia.
  - congruence.
  - lia.
  - apply nth_error_In in Et. specialize (F _ Et). lia.
  - congruence.
  - exact R.
Qed.

Lemma generate_report_raises threads times speedups efficiencies e :
  generate_report threads times speedups efficiencies = Raise e ->
  (e = ValueError
   /\ (speedups = [] \/ Exists (fun t => str_limit <= Z.abs t) threads))
  \/ (e = IndexError /\ speedups <> []
      /\ ((List.length threads < List.length speedups)%nat \/ times = [])).
Proof.
  intros H.
  destruct (generate_report_cases threads times speedups efficiencies)
    as [[X E]|[_ [[Q E]|(Ns & idx & Li & [[C E]|(t & Et & [[C E]|[(_ & C & E)|(_ & _ & r & E)]])])]]];
    rewrite E in H; [| | | | |discriminate]; injection H as <-.
  - left. split; [reflexivity|]. right.
    apply Exists_exists in X. destruct X as (row & Hin & Hl).
    apply Exists_exists. exists (fst (fst (fst row))).
    split; [now apply FormatFacts.in_zip4_threads in Hin | exact Hl].
  - left. auto.
  - right. split; [reflexivity|]. split; [exact Ns|]. left. lia.
  - left. split; [reflexivity|]. right.
    apply Exists_exists. exists t. split; [now apply nth_error_In with idx | exact C].
  - right. auto.
Qed.

Lemma calculate_efficiency_errors_aux threads speedups e :
  calculate_efficiency threads speedups = Raise e ->
  e = ZeroDivisionError \/ e = OverflowError.
Proof.
  unfold calculate_efficiency. revert threads.
  induction speedups as [|s speedups IH]; intros [|t threads] H; try discriminate.
  cbn [zip mapM] in H.
  destruct (efficiency_of_pair_cases s t)
    as [(y & _ & _ & E)|[(_ & E)|(_ & E)]]; rewrite E in H; cbn [bind] in H.
  - destruct (mapM _ (zip speedups threads)) as [effs|e'] eqn:M; [discriminate|].
    cbn [bind] in H. injection H as ->. now apply (IH threads).
  - injection H as <-. now left.
  - injection H as <-. now right.
Qed.

End PipelineFacts.

(** What [calculate_speedup] returns: the empty list under its guard (no
    times, or a first time that is zero); otherwise the quotients of the
    first time by every time, as many as there are times, when no time is
    zero; and [ZeroDivisionError], no other exception, at the first later
    time that is zero. *)
Theorem calculate_speedup_outcomes (threads : list Z) (times : list float) :
  match calculate_speedup threads times with
  | Ok speedups =>
      (speedups = []
       /\ (times = [] \/ exists base rest, times = base :: rest /\ feq base fzero = true))
      \/ (exists base rest,
            times = base :: rest
            /\ Forall (fun t => feq t fzero = false) times
            /\ speedups = map (fdiv base) times
            /\ List.length speedups = List.length times)
  | Raise e =>
      e = ZeroDivisionError
      /\ exists base before t after,
           times = base :: (before ++ t :: after)%list
           /\ Forall (fun t => feq t fzero = false) (base :: before)
           /\ feq t fzero = true
  end.
Proof.
  unfold calculate_speedup. destruct times as [|base rest]; [left; auto|].
  destruct (feq base fzero) eqn:Zb; [left; split; [reflexivity | right; eauto]|].
  destruct (PipelineFacts.mapM_truediv_cases base (base :: rest))
    as [[F E]|(before & t & after & Q & F & Zt & E)]; rewrite E.
  - right. exists base, rest. rewrite List.length_map. auto.
  - split; [reflexivity|].
    destruct before as [|b before]; cbn [app] in Q; injection Q as <- ->.
    + congruence.
    + exists base, before, t, after. auto.
Qed.

(** With thread counts that are not zero and are below [2^1023] in size,
    [calculate_efficiency] raises nothing: it returns a list as long as the
    shorter of its two lists. *)
Theorem calculate_efficiency_in_range (threads : list Z) (speedups : list float) :
  Forall (fun t => t <> 0 /\ Z.abs t < 2 ^ 1023) threads ->
  exists efficiencies,
    calculate_efficiency threads speedups = Ok efficiencies
    /\ List.length efficiencies = Nat.min (List.length speedups) (List.length threads).
Proof.
  intros H.
  destruct (EfficiencyFacts.efficiencies speedups threads) as (effs & E & L & _).
  - intros s t Hin. apply PipelineFacts.in_zip_r in Hin.
    rewrite Forall_forall in H. destruct (H t Hin) as [Nz B].
    split; [exact Nz | now apply FloatFacts.float_of_int_in_range].
  - now exists effs.
Qed.

(** Four samples, of which the last has no speedup. *)
Lemma calculate_efficiency_in_range_witness :
  exists efficiencies,
    calculate_efficiency [1; 2; 4; 8] [f1_0; float_of_decimal 15 1; f2_0] = Ok efficiencies
    /\ List.length efficiencies = 3%nat.
Proof.
  apply (calculate_efficiency_in_range [1; 2; 4; 8] [f1_0; float_of_decimal 15 1; f2_0]).
  repeat constructor; try discriminate; reflexivity.
Defined.

(** When [calculate_efficiency] raises, it is at a pair of a speedup and a
    thread count, and it is [ZeroDivisionError] for a thread count of zero or
    [OverflowError] for a thread count beyond the range of floats. *)
Theorem calculate_efficiency_errors (threads : list Z) (speedups : list float) (e : exn) :
  calculate_efficiency threads speedups = Raise e ->
  exists i s t,
    nth_error speedups i = Some s /\ nth_error threads i = Some t
    /\ ((e = ZeroDivisionError /\ t = 0)
        \/ (e = OverflowError /\ float_of_int t = Raise OverflowError)).
Proof.
  unfold calculate_efficiency. revert threads.
  induction speedups as [|s speedups IH]; intros [|t threads] H; try discriminate.
  cbn [zip mapM] in H.
  destruct (PipelineFacts.efficiency_of_pair_cases s t)
    as [(y & _ & _ & E)|[(Zt & E)|(F & E)]]; rewrite E in H; cbn [bind] in H.
  - destruct (mapM _ (zip speedups threads)) as [effs|e'] eqn:M; [discriminate|].
    cbn [bind] in H. injection H as ->.
    destruct (IH threads M) as (i & s' & t' & Hs & Ht & C).
    now exists (S i), s', t'.
  - injection H as <-. exists O, s, t. auto.
  - injection H as <-. exists O, s, t. auto.
Qed.

(** A thread count of zero, as the pattern accepts it. *)
Lemma calculate_efficiency_errors_witness :
  exists i s t,
    nth_error [f1_0; f1_0] i = Some s /\ nth_error [1; 0] i = Some t
    /\ ((ZeroDivisionError = ZeroDivisionError /\ t = 0)
        \/ (ZeroDivisionError = OverflowError /\ float_of_int t = Raise OverflowError)).
Proof.
  apply (calculate_efficiency_errors [1; 0] [f1_0; f1_0] ZeroDivisionError).
  vm_compute. reflexivity.
Defined.

(** What [generate_report] does, by its lists alone.  Without speedups it
    raises [ValueError], from [max].  A row of the table whose thread count
    has a numeral beyond the limit of [str_limit] makes it raise [ValueError]
    too.  With speedups, at least as many thread counts, all within the
    limit, and a time, it returns a report.  It raises nothing but
    [ValueError], for no speedups or for a thread count beyond the limit,
    and [IndexError], for fewer thread counts than speedups or for no
    times. *)
Theorem generate_report_outcomes
    (threads : list Z) (times speedups efficiencies : list float) :
  (speedups = [] ->
   generate_report threads times speedups efficiencies = Raise ValueError)
  /\ (Exists (fun row => str_limit <= Z.abs (fst (fst (fst row))))
             (zip4 threads times speedups efficiencies) ->
      generate_report threads times speedups efficiencies = Raise ValueError)
  /\ (speedups <> [] ->
      (List.length speedups <= List.length threads)%nat -> times <> [] ->
      Forall (fun t => Z.abs t < str_limit) threads ->
      exists report, generate_report threads times speedups efficiencies = Ok report)
  /\ (forall e,
        generate_report threads times speedups efficiencies = Raise e ->
        (e = ValueError
         /\ (speedups = [] \/ Exists (fun t => str_limit <= Z.abs t) threads))
        \/ (e = IndexError /\ speedups <> []
            /\ ((List.length threads < List.length speedups)%nat \/ times = []))).
Proof.
  split; [|split; [|split]].
  - intros ->. unfold generate_report, table_rows.
    now rewrite FormatFacts.zip4_no_speedups.
  - intros X.
    destruct (PipelineFacts.generate_report_cases threads times speedups efficiencies)
      as [[_ E]|[F _]]; [exact E|].
    exfalso. apply Exists_exists in X. destruct X as (row & Hin & Hl).
    rewrite Forall_forall in F. specialize (F _ Hin). lia.
  - apply PipelineFacts.generate_report_returns.
  - apply PipelineFacts.generate_report_raises.
Qed.



(** Once the log has been read, the exceptions in which a run can end
    before it has the text of its report: [ValueError] (a thread count that
    [int] does not read, a number that [float] does not read, or a first time
    of zero, for which [max] gets no speedups), [ZeroDivisionError] (a later
    time of zero, or a thread count of zero) and [OverflowError] (a thread
    count beyond the range of floats).  An [IndexError] never does: the
    lists that [generate_report] indexes are as long as the list of
    speedups.  The exceptions of opening, reading and writing the files are
    not part of [main] as it is defined here, which starts from the content
    of the log. *)
Theorem main_uncaught_exceptions (content : string) (e : exn) :
  main content = Uncaught e ->
  e = ValueError \/ e = ZeroDivisionError \/ e = OverflowError.
Proof.
  unfold main. intros H.
  destruct (parse_results content) as [[threads times]|e'] eqn:P.
  - assert (L : List.length threads = List.length times).
    { unfold parse_results in P. now apply ParseFacts.for_matches_nonneg in P. }
    destruct threads as [|t threads]; [discriminate|].
    destruct (calculate_speedup (t :: threads) times) as [speedups|e1] eqn:S;
      cbn [bind run_result] in H.
    + destruct (calculate_efficiency (t :: threads) speedups) as [effs|e2] eqn:E;
        cbn [bind run_result] in H.
      * destruct (generate_report (t :: threads) times speedups effs) as [report|e3] eqn:R;
          cbn [run_result] in H; [discriminate|]. injection H as <-.
        destruct (PipelineFacts.generate_report_raises _ _ _ _ _ R)
          as [[-> _]|(_ & Ns & C)]; [now left|].
        exfalso. apply PipelineFacts.calculate_speedup_length in S.
        destruct S as [S|S]; [congruence|].
        destruct C as [C|C]; [lia | subst times; discriminate].
      * injection H as <-.
        destruct (PipelineFacts.calculate_efficiency_errors_aux (t :: threads) speedups e2 E); auto.
    + injection H as <-. right. left.
      now apply PipelineFacts.calculate_speedup_raises in S.
  - injection H as <-. left.
    unfold parse_results in P.
    destruct (ConversionFacts.for_matches_readable (Re.findall pattern content) [] [])
      as [Y N].
    { intros m Hin. now apply PatternFacts.findall_matches in Hin. }
    destruct (Forall_dec _ ConversionFacts.is_readable_dec (Re.findall pattern content))
      as [F|F].
    + destruct (Y F) as (r & Q). congruence.
    + rewrite (N F) in P. congruence.
Qed.

(** A first time of zero: [max] gets no speedups. *)
Lemma main_uncaught_exceptions_witness :
  ValueError = ValueError \/ ValueError = ZeroDivisionError \/ ValueError = OverflowError.
Proof.
  apply (main_uncaught_exceptions "Threads: 1 Execution Time: 0ms" ValueError).
  vm_compute. reflexivity.
Defined.

(** ** The sign of the metrics *)

Module SignFacts.
Import FloatFacts.

(** A quotient of two times: the divisor is not zero when [truediv]
    divides. *)
Lemma fdiv_sign x y :
  nonneg x \/ is_nan x = true -> nonneg y -> feq y fzero = false ->
  nonneg (fdiv x y) \/ is_nan (fdiv x y) = true.
Proof.
  intros Hx Hy Z. apply nonneg_cases in Hy.
  destruct Hy as [(s & ->)|[->|(m & e & ->)]].
  - destruct s; discriminate.
  - destruct Hx as [Hx|Hx].
    + apply nonneg_cases in Hx.
      destruct Hx as [(s & ->)|[->|(mx & ex & ->)]];
        [left; apply nonneg_cases; left; simpl; eauto
        | now right
        | left; apply nonneg_cases; left; simpl; eauto].
    + destruct x; try discriminate. now right.
  - destruct Hx as [Hx|Hx].
    + left. now apply fdiv_nonneg.
    + destruct x; try discriminate. now right.
Qed.

Lemma fmul_sign x m e :
  nonneg x \/ is_nan x = true ->
  nonneg (fmul x (S754_finite false m e))
  \/ is_nan (fmul x (S754_finite false m e)) = true.
Proof.
  intros [Hx|Hx].
  - left. now apply fmul_nonneg.
  - destruct x; try discriminate. now right.
Qed.

(** [float(t)] for an int above zero is not below zero. *)
Lemma float_of_int_nonneg t y :
  0 < t -> float_of_int t = Ok y -> nonneg y.
Proof.
  intros Ht. unfold float_of_int, binary_normalize.
  destruct t as [|p|p]; try lia.
  unfold binary_round.
  destruct (shl_align p 0 (fexp prec emax (Zpos (digits2_pos p) + 0))) as [mz ez].
  pose proof (binary_round_aux_cases prec emax false (Zpos mz) ez loc_Exact) as H.
  cbv zeta in H. specialize (H ltac:(lia)).
  destruct H as [H|[H|(m' & e' & H)]]; rewrite H; [|discriminate|];
    intros E; injection E as <-; reflexivity.
Qed.

(** The speedups of times that are not below zero. *)
Lemma speedups_sign base : forall times speedups,
  nonneg base -> Forall nonneg times ->
  mapM (fun t => truediv base t) times = Ok speedups ->
  Forall (fun s => nonneg s \/ is_nan s = true) speedups.
Proof.
  induction times as [|t times IH]; intros speedups Hb Ht H; cbn [mapM] in H.
  - injection H as <-. constructor.
  - unfold truediv at 1 in H. destruct (feq t fzero) eqn:Z; [discriminate|].
    cbn [bind] in H.
    destruct (mapM (fun t => truediv base t) times) as [ys|] eqn:E; [|discriminate].
    cbn [bind] in H. injection H as <-. constructor.
    + apply fdiv_sign; [now left | exact (Forall_inv Ht) | exact Z].
    + apply IH; [exact Hb | exact (Forall_inv_tail Ht) | reflexivity].
Qed.

(** The efficiencies of such speedups, for thread counts not below zero. *)
Lemma efficiencies_sign : forall speedups threads effs,
  Forall (fun s => nonneg s \/ is_nan s = true) speedups ->
  Forall (fun t => 0 <= t) threads ->
  calculate_efficiency threads speedups = Ok effs ->
  Forall (fun x => nonneg x \/ is_nan x = true) effs.
Proof.
  unfold calculate_efficiency.
  induction speedups as [|s speedups IH]; intros [|t threads] effs Hs Ht H;
    cbn [zip mapM] in H; try (injection H as <-; constructor).
  destruct (PipelineFacts.efficiency_of_pair_cases s t)
    as [(y & Nz & Y & E)|[(_ & E)|(_ & E)]]; rewrite E in H; try discriminate.
  cbn [bind] in H.
  destruct (mapM (fun '(s, t) => q <- truediv_int s t ;; mul_int q 100)
              (zip speedups threads)) as [ys|] eqn:M; [|discriminate].
  cbn [bind] in H. injection H as <-. constructor.
  - apply fmul_sign. apply fdiv_sign.
    + exact (Forall_inv Hs).
    + apply (float_of_int_nonneg t); [pose proof (Forall_inv Ht) as Q; cbv beta in Q; lia | exact Y].
    + now apply (float_of_int_nonzero t).
  - apply (IH threads); [exact (Forall_inv_tail Hs) | exact (Forall_inv_tail Ht) | exact M].
Qed.

End SignFacts.

(** No metric is negative.  The speedups that [calculate_speedup] gives for
    the samples of [parse_results], and the efficiencies that
    [calculate_efficiency] gives for them, are each zero, positive, plus
    infinity or a NaN: the times and the thread counts that the pattern
    lets through carry no sign. *)
Theorem metrics_not_negative
  (content : string) (threads : list Z) (times speedups efficiencies : list float) :
  parse_results content = Ok (threads, times) ->
  calculate_speedup threads times = Ok speedups ->
  calculate_efficiency threads speedups = Ok efficiencies ->
  Forall (fun s => nonneg s \/ is_nan s = true) speedups
  /\ Forall (fun x => nonneg x \/ is_nan x = true) efficiencies.
Proof.
  intros P S E.
  unfold parse_results in P.
  apply ParseFacts.for_matches_nonneg in P; [|reflexivity|constructor|constructor].
  destruct P as (_ & Ht & Hx).
  assert (Hs : Forall (fun s => nonneg s \/ is_nan s = true) speedups).
  { unfold calculate_speedup in S. destruct times as [|base rest].
    - injection S as <-. constructor.
    - destruct (feq base fzero).
      + injection S as <-. constructor.
      + apply (SignFacts.speedups_sign base (base :: rest));
          [exact (Forall_inv Hx) | exact Hx | exact S]. }
  split; [exact Hs|].
  now apply (SignFacts.efficiencies_sign speedups threads).
Qed.

(** Two records, the second with a time beyond the range of floats: its
    speedup and its efficiency are zero. *)
Lemma metrics_not_negative_witness :
  let huge := String.concat "" (repeat "9" 400) in
  let content :=
    ("Threads: 1 Execution Time: 500ms Threads: 2 Execution Time: " ++ huge ++ "ms")%string in
  Forall (fun s => nonneg s \/ is_nan s = true) [f1_0; fzero]
  /\ Forall (fun x => nonneg x \/ is_nan x = true) [f100; fzero].
Proof.
  cbv zeta.
  apply (metrics_not_negative
           ("Threads: 1 Execution Time: 500ms Threads: 2 Execution Time: "
            ++ String.concat "" (repeat "9" 400) ++ "ms")%string
           [1; 2] [float_of_decimal 500 0; S754_infinity false]).
  - vm_compute. reflexivity.
  - vm_compute. reflexivity.
  - vm_compute. reflexivity.
Defined.

(** The NaN is met: with both times beyond the range of floats, the
    speedups are quotients of two infinities. *)
Example infinite_times_give_nan :
  calculate_speedup [1; 2] [S754_infinity false; S754_infinity false]
  = Ok [S754_nan; S754_nan]
  /\ calculate_efficiency [1; 2] [S754_nan; S754_nan] = Ok [S754_nan; S754_nan].
Proof. split; vm_compute; reflexivity. Qed.
